(** * Audio analysis server (server.js): the sampling pipeline and its cache

    A shallow embedding of [analyzeSample], [analyzeAudio],
    [downloadRobloxAudio], the three routes and the [SIGTERM] handler
    of [src/server.js].

    - A JavaScript Number is a binary64 float: Rocq's primitive [float],
      whose operations are specified by [Prim2SF] and the [FloatAxioms].
      The integer loop counters [i] and [j] are kept in [Z]: they count
      the elements of an array, which has fewer than [2^32] of them,
      and a Number is exact up to [2^53].
    - The external commands ([ffprobe], [ffmpeg]), the network, the file
      system, [Math.random] and the implementation-approximated part of
      [Math.pow] are inputs of the model (a [World] record and a Section
      variable): the code is a function of what they answer.
    - An [async] function is modelled by how its promise ends
      ([completion]).  Requests are handled one after the other
      ([serve], [run]) or, where they may overlap, as the event loop
      interleaves them at the [await]s of the handler ([schedule]). *)

From Stdlib Require Import Rbase Rbasic_fun Rpower Qreals Lra.
From Stdlib Require Import ZArith QArith Qpower Qround Qabs Floats String Ascii List Lia Lqa.
From stdpp Require Import base option gmap strings.
Import ListNotations.

#[local] Set Warnings "-inexact-float".
#[local] Open Scope Z_scope.

(* ================================================================== *)
(** ** JavaScript numbers *)
(* ================================================================== *)

Module Number.

(** The real value of a finite Number, as an exact rational. *)
Definition value (x : float) : option Q :=
  match Prim2SF x with
  | S754_zero _ => Some 0%Q
  | S754_finite s m e => Some (inject_Z (cond_Zopp s (Zpos m)) * Qpower 2 e)%Q
  | S754_infinity _ | S754_nan => None
  end.

(** The Number nearest to [(-1)^neg * m * 10^e10] (ties to even), the
    Number value of a decimal literal with digits [m]: what both
    [parseFloat] and the reading of a numeric literal compute.  A zero
    mantissa keeps its sign. *)
Definition of_decimal (neg : bool) (m : Z) (e10 : Z) : float :=
  SF2Prim
    match m with
    | Zpos p =>
        if 0 <=? e10
        then binary_normalize prec emax (cond_Zopp neg (Zpos p * 10 ^ e10)) 0 false
        else SFdiv prec emax (S754_finite neg p 0)
                   (S754_finite false (Z.to_pos (10 ^ (- e10))) 0)
    | _ => S754_zero neg
    end.

(** An integer loop counter as a Number (for [0 <= k < 2^63]; exact
    below [2^53]). *)
Definition of_Z (k : Z) : float := of_uint63 (Uint63.of_Z k).

(** What [Math.floor] returns: NaN, an infinity, or an integer. *)
Variant integral := IntNaN | IntInf (neg : bool) | IntFin (z : Z).

Definition Math_floor (x : float) : integral :=
  match Prim2SF x with
  | S754_nan => IntNaN
  | S754_infinity s => IntInf s
  | S754_zero _ => IntFin 0
  | S754_finite s m e => IntFin (Z.shiftl (cond_Zopp s (Zpos m)) e)
  end.

(** [i < n] for an integer counter [i] and a [Math.floor] result [n]:
    false against NaN and [-Infinity], true against [+Infinity]. *)
Definition lt_integral (i : Z) (n : integral) : bool :=
  match n with
  | IntNaN => false
  | IntInf neg => negb neg
  | IntFin z => i <? z
  end.

(** The string [x.toFixed(k)], by what it denotes.
    [FxDec neg n k] is the digit string of [n] with a point before its
    last [k] digits and a leading "-" when [neg]: ECMAScript picks the
    integer [n] for which [n / 10^k - |x|] is closest to zero, the
    larger [n] when there are two.  From [10^21] on the Number is
    printed as [ToString] prints it ([FxBig], which reads back as
    itself). *)
Variant fixed := FxNaN | FxInf (neg : bool) | FxBig (x : float)
               | FxDec (neg : bool) (n : Z) (k : nat).

Definition toFixed (x : float) (k : nat) : fixed :=
  match Prim2SF x with
  | S754_nan => FxNaN
  | S754_infinity s => FxInf s
  | S754_zero _ => FxDec false 0 k
  | S754_finite s m e =>
      let ax := (inject_Z (Zpos m) * Qpower 2 e)%Q in
      if Qle_bool (inject_Z (10 ^ 21)) ax then FxBig x
      else FxDec s (Qfloor (ax * inject_Z (10 ^ Z.of_nat k) + (1 # 2))) k
  end.

(** [parseFloat] of a string printed by [toFixed]. *)
Definition parseFloat_fixed (s : fixed) : float :=
  match s with
  | FxNaN => nan
  | FxInf neg => if neg then neg_infinity else infinity
  | FxBig x => x
  | FxDec neg n k => of_decimal neg n (- Z.of_nat k)
  end.

End Number.

Import Number.

(* ================================================================== *)
(** ** Strings: [trim], [parseFloat] and the two regular expressions *)
(* ================================================================== *)

Module Text.

(** White space and line terminators: the ASCII ones, which is what
    [ffprobe] and [ffmpeg] print.  The blanks outside ASCII that [trim]
    and [parseFloat] skip as well (U+00A0, U+FEFF, U+2028, ...) are not
    modelled. *)
Definition is_space (c : ascii) : bool :=
  let n := N_of_ascii c in ((9 <=? n) && (n <=? 13) || (n =? 32))%N.

Definition digit_of (c : ascii) : option Z :=
  let n := Z.of_N (N_of_ascii c) in
  if (48 <=? n) && (n <=? 57) then Some (n - 48) else None.

Fixpoint trim_start (s : string) : string :=
  match s with
  | String c s' => if is_space c then trim_start s' else s
  | EmptyString => s
  end.

Fixpoint trim_end (s : string) : string :=
  match s with
  | String c s' =>
      match trim_end s' with
      | EmptyString => if is_space c then EmptyString else String c EmptyString
      | t => String c t
      end
  | EmptyString => EmptyString
  end.

(** [s.trim()] *)
Definition trim (s : string) : string := trim_end (trim_start s).

(** [Some rest] when [s = p ++ rest]. *)
Fixpoint strip_prefix (p s : string) : option string :=
  match p, s with
  | EmptyString, _ => Some s
  | String a p', String b s' => if Ascii.eqb a b then strip_prefix p' s' else None
  | String _ _, EmptyString => None
  end.

(** A run of decimal digits: its value on top of [acc], how many digits
    were read, and what follows. *)
Fixpoint digits (s : string) (acc : Z) (cnt : Z) : Z * Z * string :=
  match s with
  | String c s' =>
      match digit_of c with
      | Some d => digits s' (10 * acc + d) (cnt + 1)
      | None => (acc, cnt, s)
      end
  | EmptyString => (acc, cnt, s)
  end.

Definition sign_of (s : string) : bool * string :=
  match s with
  | String "-" s' => (true, s')
  | String "+" s' => (false, s')
  | _ => (false, s)
  end.

(** ExponentPart, read only when it is complete ([e], an optional sign
    and at least one digit). *)
Definition exponent_part (s : string) : Z :=
  match s with
  | String c s' =>
      if Ascii.eqb c "e" || Ascii.eqb c "E" then
        let '(neg, s'') := sign_of s' in
        let '(v, cnt, _) := digits s'' 0 0 in
        if 0 <? cnt then (if neg then - v else v) else 0
      else 0
  | EmptyString => 0
  end.

(** [parseFloat(s)]: leading white space is skipped, the longest prefix
    that is a StrDecimalLiteral is read, and NaN is returned when there
    is none. *)
Definition parseFloat (s : string) : float :=
  let '(neg, u) := sign_of (trim_start s) in
  match strip_prefix "Infinity"%string u with
  | Some _ => if neg then neg_infinity else infinity
  | None =>
      let '(ip, n1, r1) := digits u 0 0 in
      let '(m, n2, r2) :=
        match r1 with
        | String "." f =>
            let '(m, n2, r2) := digits f ip 0 in
            if (0 <? n1) || (0 <? n2) then (m, n2, r2) else (ip, 0, r1)
        | _ => (ip, 0, r1)
        end in
      if (0 <? n1) || (0 <? n2)
      then of_decimal neg m (exponent_part r2 - n2)
      else nan
  end.

(** The character class [[-\d.]]. *)
Definition num_class (c : ascii) : bool :=
  Ascii.eqb c "-" || Ascii.eqb c "." || bool_decide (is_Some (digit_of c)).

Fixpoint take_class (s : string) : string :=
  match s with
  | String c s' => if num_class c then String c (take_class s') else EmptyString
  | EmptyString => EmptyString
  end.

(** [s.match(/<label>([-\d.]+)/)]: the capture group of the leftmost
    match, [None] when the expression does not match.  A position where
    the label is followed by no character of the class is not a match,
    and the search goes on to its right. *)
Fixpoint match_label (label s : string) : option string :=
  let here :=
    match strip_prefix label s with
    | Some rest =>
        match take_class rest with
        | EmptyString => None
        | cap => Some cap
        end
    | None => None
    end in
  match here, s with
  | Some cap, _ => Some cap
  | None, String _ s' => match_label label s'
  | None, EmptyString => None
  end.

End Text.

Import Text.

(* ================================================================== *)
(** ** Data model *)
(* ================================================================== *)

Module Sample.
Record t := mk {
  time : float; amplitude : float; bass : float; mid : float;
  high : float; peak : float }.
End Sample.

Module AnalysisResult.
Record t := mk {
  assetId : string; duration : float; interval : float;
  samples : nat; data : list Sample.t }.
End AnalysisResult.

(** How an [async] call ends: its promise is fulfilled, it is rejected
    with [new Error(message)], or it never settles. *)
Variant completion (A : Type) :=
  | Returns (a : A)
  | Throws (message : string)
  | Pending.
Arguments Returns {A} a.
Arguments Throws {A} message.
Arguments Pending {A}.

(** The two command lines given to [execAsync], by their arguments. *)
Variant command :=
  | Ffprobe (audioPath : string)
  | Ffmpeg (audioPath : string) (ss t : float).

(** [execAsync(cmd)] resolves with the output or rejects. *)
Variant exec_result := ExecOk (stdout : string) | ExecErr (message : string).

(** Everything outside the process.  [Math_random k] are the three
    numbers [Math.random()] hands to the analysis of window [k]: the
    calls of one batch interleave in completion order, so which draws a
    window gets is not fixed by the code. *)
Record World := {
  dirname : string;
  existsSync : string -> bool;
  mkdirSync : string -> option string;
  axios : string -> option string;
  pipe_to_file : string -> completion unit;
  unlinkSync : string -> option string;
  execAsync : command -> exec_result;
  Math_random : Z -> float * float * float }.

(** What the sampler does that can be observed from outside: the call of
    [analyzeSample] for window [k], which starts its [ffmpeg] process
    before it returns a promise, and the return of
    [await Promise.all(chunkPromises)], when every promise of the batch
    has settled. *)
Variant event := Started (k : Z) | Joined (ks : list Z).

Definition interval : float := 0.1%float.

(* ================================================================== *)
(** ** The sampler *)
(* ================================================================== *)

Section Sampler.

(** [Math.pow] where ECMAScript leaves the result to the implementation. *)
Variable pow_approx : float -> float -> float.

(** [Math.pow(base, exponent)] for a finite [base] other than zero:
    the cases ECMAScript fixes, then the implementation's value. *)
Definition Math_pow (base exponent : float) : float :=
  if is_nan exponent then nan
  else if is_zero exponent then 1%float
  else if is_nan base then nan
  else if is_infinity exponent then
    if (abs base =? 1)%float then nan
    else if xorb (1 <? abs base)%float (get_sign exponent) then infinity
    else 0%float
  else pow_approx base exponent.

Variable w : World.

(** [analyzeSample(audioPath, time, duration)], with the three draws of
    [Math.random()] as [rnd]. *)
Definition analyzeSample (audioPath : string) (time duration : float)
    (rnd : float * float * float) : Sample.t :=
  match execAsync w (Ffmpeg audioPath time duration) with
  | ExecOk stdout =>
      let rmsMatch := match_label "RMS level dB: " stdout in
      let peakMatch := match_label "Peak level dB: " stdout in
      let rmsDb := match rmsMatch with Some g => parseFloat g | None => (-60)%float end in
      let peakDb := match peakMatch with Some g => parseFloat g | None => (-60)%float end in
      let amplitude := Math_pow 10 (rmsDb / 20) in
      let peak := Math_pow 10 (peakDb / 20) in
      let '(r1, r2, r3) := rnd in
      let bass := (amplitude * (0.8 + r1 * 0.2))%float in
      let mid := (amplitude * (0.7 + r2 * 0.3))%float in
      let high := (amplitude * (0.6 + r3 * 0.4))%float in
      {| Sample.time := parseFloat_fixed (toFixed time 2);
         Sample.amplitude := parseFloat_fixed (toFixed amplitude 4);
         Sample.bass := parseFloat_fixed (toFixed bass 4);
         Sample.mid := parseFloat_fixed (toFixed mid 4);
         Sample.high := parseFloat_fixed (toFixed high 4);
         Sample.peak := parseFloat_fixed (toFixed peak 4) |}
  | ExecErr _ =>
      {| Sample.time := parseFloat_fixed (toFixed time 2);
         Sample.amplitude := 0; Sample.bass := 0; Sample.mid := 0;
         Sample.high := 0; Sample.peak := 0 |}
  end.

Section Loop.
Variable audioPath : string.
Variable numSamples : integral.

(** The inner loop
    [for (let j = 0; j < 10 && (i + j) < numSamples; j++)]: the
    window and the [time] of every call it pushes; [n] counts the
    rounds that [j < 10] still allows. *)
Fixpoint chunkPromises (n : nat) (i j : Z) : list (Z * float) :=
  match n with
  | O => []
  | S n' =>
      if lt_integral (i + j) numSamples then
        let time := (of_Z (i + j) * interval)%float in
        (i + j, time) :: chunkPromises n' i (j + 1)
      else []
  end.

(** The value a pushed promise settles to. *)
Definition settled (p : Z * float) : Sample.t :=
  analyzeSample audioPath (snd p) interval (Math_random w (fst p)).

(** The outer loop [for (let i = 0; i < numSamples; i += 10)];
    [None] when [fuel] rounds were not enough to leave it. *)
Fixpoint batches (fuel : nat) (i : Z) (samples : list Sample.t)
    (log : list event) : option (list Sample.t * list event) :=
  match fuel with
  | O => None
  | S fuel' =>
      if lt_integral i numSamples then
        let promises := chunkPromises 10 i 0 in
        let chunkResults := settled <$> promises in
        batches fuel' (i + 10) (samples ++ chunkResults)
                (log ++ (Started ∘ fst <$> promises)
                     ++ [Joined (fst <$> promises)])
      else Some (samples, log)
  end.

(** Rounds that suffice whenever the loop ends at all. *)
Definition rounds : nat :=
  match numSamples with
  | IntFin z => S (Z.to_nat z)
  | _ => 1
  end.
End Loop.

(** [path.basename(p, ext)] for a path that does not end in a separator
    and is not the extension alone, as the temp paths are. *)
Fixpoint last_segment (p cur : string) : string :=
  match p with
  | String c p' =>
      if Ascii.eqb c "/" then last_segment p' EmptyString
      else last_segment p' (cur +:+ String c EmptyString)
  | EmptyString => cur
  end.

Definition basename (p ext : string) : string :=
  let name := last_segment p EmptyString in
  let n := String.length name in
  let e := String.length ext in
  if (e <? n)%nat && String.eqb (substring (n - e) e name) ext
  then substring 0 (n - e) name else name.

(** [analyzeAudio(audioPath)] together with the events it produced. *)
Definition analyzeAudio_run (audioPath : string)
    : completion AnalysisResult.t * list event :=
  match execAsync w (Ffprobe audioPath) with
  | ExecErr message => (Throws ("Audio analysis failed: " +:+ message), [])
  | ExecOk durationOutput =>
      let duration := parseFloat (trim durationOutput) in
      let numSamples := Math_floor (duration / interval) in
      match batches audioPath numSamples (rounds numSamples) 0 [] [] with
      | Some (samples, log) =>
          (Returns {| AnalysisResult.assetId := basename audioPath ".mp3";
                      AnalysisResult.duration := duration;
                      AnalysisResult.interval := interval;
                      AnalysisResult.samples := length samples;
                      AnalysisResult.data := samples |}, log)
      | None => (Pending, [])
      end
  end.

Definition analyzeAudio (audioPath : string) : completion AnalysisResult.t :=
  fst (analyzeAudio_run audioPath).

(** [downloadRobloxAudio(assetId)]; [path.join] is the concatenation
    with separators, which it is for an [assetId] without [/] and a
    [dirname] other than [/] (nothing is there to normalise).  An error
    of [axios] is wrapped by the [catch]; an
    error of [mkdirSync] or of the writer is thrown as it is. *)
Definition downloadRobloxAudio (assetId : string) : completion string :=
  let downloadUrl := "https://assetdelivery.roblox.com/v1/asset/?id=" +:+ assetId in
  let tempDir := dirname w +:+ "/temp" in
  let tempPath := tempDir +:+ "/" +:+ assetId +:+ ".mp3" in
  match (if existsSync w tempDir then None else mkdirSync w tempDir) with
  | Some message => Throws message
  | None =>
      match axios w downloadUrl with
      | Some message => Throws ("Failed to download audio: " +:+ message)
      | None =>
          match pipe_to_file w tempPath with
          | Returns _ => Returns tempPath
          | Throws message => Throws message
          | Pending => Pending
          end
      end
  end.

End Sampler.

(* ================================================================== *)
(** ** The request handler and the cache *)
(* ================================================================== *)

(** The JSON body sent, with its status: [200] with
    [{success: true, cached, data}] or [500] with
    [{success: false, error}]. *)
Variant response :=
  | Ok200 (cached : bool) (data : AnalysisResult.t)
  | Error500 (error : string).

Section Handler.

Variable pow_approx : float -> float -> float.

(** [GET /api/analyze/:assetId] in world [w] with the cache [cache]:
    the response sent ([None] when none ever is) and the cache left. *)
Definition analyze_handler (w : World) (assetId : string)
    (cache : gmap string AnalysisResult.t)
    : option response * gmap string AnalysisResult.t :=
  match cache !! assetId with
  | Some cached => (Some (Ok200 true cached), cache)
  | None =>
      match downloadRobloxAudio w assetId with
      | Throws message => (Some (Error500 message), cache)
      | Pending => (None, cache)
      | Returns audioPath =>
          match analyzeAudio pow_approx w audioPath with
          | Throws message => (Some (Error500 message), cache)
          | Pending => (None, cache)
          | Returns frequencyData =>
              let cache := <[assetId := frequencyData]> cache in
              match unlinkSync w audioPath with
              | Some message => (Some (Error500 message), cache)
              | None => (Some (Ok200 false frequencyData), cache)
              end
          end
      end
  end.

(** Requests served one after the other. *)
Fixpoint serve (requests : list (World * string))
    (cache : gmap string AnalysisResult.t)
    : list (option response) * gmap string AnalysisResult.t :=
  match requests with
  | [] => ([], cache)
  | (w, assetId) :: rest =>
      let '(r, cache) := analyze_handler w assetId cache in
      let '(rs, cache) := serve rest cache in
      (r :: rs, cache)
  end.

End Handler.

(* ================================================================== *)
(** ** The [Map], the three routes and the shutdown handler *)
(* ================================================================== *)

(** [new Map()] with string keys: its entries in insertion order.
    [set] on a key that is present replaces the value where it stands;
    on a new key it appends the entry. *)
Module JSMap.

Definition t : Type := list (string * AnalysisResult.t).

Fixpoint get (k : string) (m : t) : option AnalysisResult.t :=
  match m with
  | [] => None
  | (k', v) :: m' => if String.eqb k k' then Some v else get k m'
  end.

Definition has (k : string) (m : t) : bool :=
  match get k m with Some _ => true | None => false end.

Fixpoint set (k : string) (v : AnalysisResult.t) (m : t) : t :=
  match m with
  | [] => [(k, v)]
  | (k', v') :: m' =>
      if String.eqb k k' then (k, v) :: m' else (k', v') :: set k v m'
  end.

Definition size (m : t) : nat := length m.

Definition keys (m : t) : list string := fst <$> m.

(** The same entries as a finite map. *)
Definition to_gmap (m : t) : gmap string AnalysisResult.t := list_to_map m.

End JSMap.

(** A request to one of the three routes; the world is the one the
    request is handled in. *)
Variant request :=
  | GetRoot
  | GetAnalyze (w : World) (assetId : string)
  | GetCache.

(** The JSON sent back: the health check, an answer of the analysis
    route, or [{cached_songs, asset_ids}]. *)
Variant reply :=
  | Health (status message : string) (endpoints : list (string * string))
  | Analysis (r : response)
  | CacheStatus (cached_songs : nat) (asset_ids : list string).

(** How the process ends. *)
Variant termination := Exit (code : Z) | Uncaught (message : string).

Section Routes.

Variable pow_approx : float -> float -> float.

(** [GET /api/analyze/:assetId] on the [Map] itself ([get] after [has]
    finds the entry). *)
Definition analyze_route (w : World) (assetId : string) (cache : JSMap.t)
    : option response * JSMap.t :=
  if JSMap.has assetId cache then
    match JSMap.get assetId cache with
    | Some cached => (Some (Ok200 true cached), cache)
    | None => (None, cache)
    end
  else
    match downloadRobloxAudio w assetId with
    | Throws message => (Some (Error500 message), cache)
    | Pending => (None, cache)
    | Returns audioPath =>
        match analyzeAudio pow_approx w audioPath with
        | Throws message => (Some (Error500 message), cache)
        | Pending => (None, cache)
        | Returns frequencyData =>
            let cache := JSMap.set assetId frequencyData cache in
            match unlinkSync w audioPath with
            | Some message => (Some (Error500 message), cache)
            | None => (Some (Ok200 false frequencyData), cache)
            end
        end
    end.

(** One request: the reply ([None] when none is ever sent) and the
    [Map] left. *)
Definition route (q : request) (cache : JSMap.t) : option reply * JSMap.t :=
  match q with
  | GetRoot =>
      (Some (Health "online" "Roblox Audio Analysis API"
               [("analyze", "/api/analyze/:assetId"); ("cache", "/api/cache");
                ("health", "/")]%string), cache)
  | GetAnalyze w assetId =>
      let '(r, cache) := analyze_route w assetId cache in
      (Analysis <$> r, cache)
  | GetCache =>
      (Some (CacheStatus (JSMap.size cache) (JSMap.keys cache)), cache)
  end.

(** Requests handled one after the other. *)
Fixpoint run (requests : list request) (cache : JSMap.t)
    : list (option reply) * JSMap.t :=
  match requests with
  | [] => ([], cache)
  | q :: rest =>
      let '(r, cache) := route q cache in
      let '(rs, cache) := run rest cache in
      (r :: rs, cache)
  end.

End Routes.

(* ================================================================== *)
(** ** Requests that overlap *)
(* ================================================================== *)

(** The server between two steps of the event loop: the [Map], and the
    analysis requests in flight (past the [cache.has] test, not yet
    answered), each with the world it is handled in. *)
Module Server.
Record t := mk { cache : JSMap.t; in_flight : list (World * string) }.
End Server.

(** A step of the event loop: a request arrives, or the request at
    position [i] of those in flight is resumed for the last time. *)
Variant action := Arrive (q : request) | Settle (i : nat).

Section EventLoop.

Variable pow_approx : float -> float -> float.

(** The [try] block of the analysis handler.  The handler is suspended
    at its two [await]s; the [Map] is only touched after the second,
    and from there to the reply nothing is awaited. *)
Definition finish (w : World) (assetId : string) (cache : JSMap.t)
    : option response * JSMap.t :=
  match downloadRobloxAudio w assetId with
  | Throws message => (Some (Error500 message), cache)
  | Pending => (None, cache)
  | Returns audioPath =>
      match analyzeAudio pow_approx w audioPath with
      | Throws message => (Some (Error500 message), cache)
      | Pending => (None, cache)
      | Returns frequencyData =>
          let cache := JSMap.set assetId frequencyData cache in
          match unlinkSync w audioPath with
          | Some message => (Some (Error500 message), cache)
          | None => (Some (Ok200 false frequencyData), cache)
          end
      end
  end.

(** One step: the reply sent in it, if any, and the server left.  An
    analysis request that arrives is answered from the [Map] or goes in
    flight; the other two routes answer at once. *)
Definition step (a : action) (s : Server.t) : option reply * Server.t :=
  match a with
  | Arrive (GetAnalyze w assetId) =>
      if JSMap.has assetId (Server.cache s) then
        match JSMap.get assetId (Server.cache s) with
        | Some cached => (Some (Analysis (Ok200 true cached)), s)
        | None => (None, s)
        end
      else
        (None, Server.mk (Server.cache s) (Server.in_flight s ++ [(w, assetId)]))
  | Arrive q =>
      let '(r, cache) := route pow_approx q (Server.cache s) in
      (r, Server.mk cache (Server.in_flight s))
  | Settle i =>
      match Server.in_flight s !! i with
      | Some (w, assetId) =>
          let '(r, cache) := finish w assetId (Server.cache s) in
          (Analysis <$> r, Server.mk cache (delete i (Server.in_flight s)))
      | None => (None, s)
      end
  end.

(** The steps of a schedule, one after the other. *)
Fixpoint schedule (actions : list action) (s : Server.t)
    : list (option reply) * Server.t :=
  match actions with
  | [] => ([], s)
  | a :: rest =>
      let '(r, s) := step a s in
      let '(rs, s) := schedule rest s in
      (r :: rs, s)
  end.

End EventLoop.

(** The schedule in which every request settles before the next one
    arrives. *)
Definition one_by_one (requests : list request) : list action :=
  requests ≫= (fun q => [Arrive q; Settle 0]).

(* ================================================================== *)
(** ** The shutdown handler *)
(* ================================================================== *)

(** The body of [forEach] in the [SIGTERM] handler, file after file: the
    paths unlinked, and the error that ended the loop if one did. *)
Fixpoint unlink_each (w : World) (tempDir : string) (files : list string)
    : list string * option string :=
  match files with
  | [] => ([], None)
  | file :: rest =>
      let p := tempDir +:+ "/" +:+ file in
      match unlinkSync w p with
      | Some message => ([], Some message)
      | None =>
          let '(unlinked, err) := unlink_each w tempDir rest in
          (p :: unlinked, err)
      end
  end.

(** What [fs.readdirSync] does: the names the directory lists, or the
    exception it throws (the path is not a directory, or may not be
    read). *)
Variant dir_result := DirOk (files : list string) | DirErr (message : string).

(** [process.on('SIGTERM', ...)]: the paths unlinked, and how the
    process ends: [exit(0)], or the exception of [readdirSync] or of an
    [unlinkSync], which nothing catches. *)
Definition on_SIGTERM (w : World) (readdirSync : string -> dir_result)
    : list string * termination :=
  let tempDir := dirname w +:+ "/temp" in
  if existsSync w tempDir then
    match readdirSync tempDir with
    | DirErr message => ([], Uncaught message)
    | DirOk files =>
        match unlink_each w tempDir files with
        | (unlinked, None) => (unlinked, Exit 0)
        | (unlinked, Some message) => (unlinked, Uncaught message)
        end
    end
  else ([], Exit 0).

(** No path separator in an asset id. *)
Fixpoint slash_free (s : string) : bool :=
  match s with
  | EmptyString => true
  | String c s' => negb (Ascii.eqb c "/") && slash_free s'
  end.

(* ================================================================== *)
(** ** What the theorems speak of *)
(* ================================================================== *)

(** The call pushed for window [k]. *)
Definition window (k : Z) : Z * float := (k, (of_Z k * interval)%float).

(** The events of one batch: every call is started, then all are joined. *)
Definition batch_log (ks : list Z) : list event :=
  (Started <$> ks) ++ [Joined ks].

(** The windows of batch [b] when there are [N] windows in all. *)
Definition batch_windows (N b : Z) : list Z :=
  seqZ (10 * b) (Z.min 10 (N - 10 * b)).

(** The number of batches for [N] windows. *)
Definition batch_count (N : Z) : Z := (N + 9) / 10.

(** Replaying a log from [p] calls in flight: the largest number of
    calls in flight at any moment. *)
Fixpoint peak_in_flight (p : nat) (log : list event) : nat :=
  match log with
  | [] => p
  | Started _ :: log' => Nat.max p (peak_in_flight (S p) log')
  | Joined ks :: log' => Nat.max p (peak_in_flight (p - length ks) log')
  end.

(** The sample of window [k] in world [w]. *)
Definition sample_at (pow_approx : float -> float -> float) (w : World)
    (audioPath : string) (k : Z) : Sample.t :=
  analyzeSample pow_approx w audioPath (of_Z k * interval) interval (Math_random w k).

(** The number of windows for a [Math.floor] result the loop can end on. *)
Definition window_count (n : integral) : Z :=
  match n with IntFin z => z | _ => 0 end.

(** The windows whose calls a log starts, in the order of the calls. *)
Definition started (log : list event) : list Z :=
  omap (fun e => match e with Started k => Some k | Joined _ => None end) log.

(** The batches a log joins, in their order. *)
Definition joined (log : list event) : list (list Z) :=
  omap (fun e => match e with Joined ks => Some ks | Started _ => None end) log.

(** [y] is a finite Number within [eps] of [c]. *)
Definition approx (y : float) (c eps : Q) : Prop :=
  exists q, value y = Some q /\ (Qabs (q - c) <= eps)%Q.

(** The decimal [(-1)^neg * n / 10^4], as [toFixed(4)] prints it. *)
Definition decimal4 (neg : bool) (n : Z) : Q :=
  inject_Z (cond_Zopp neg n) * (1 # 10000).

(** [y] is the power [10^x] rounded to four decimals, for a [Math.pow]
    that is off by [err] at [x]: [y] is the Number of a decimal with
    four places, and the decimal differs from [10^x] by at most half a
    unit of the fourth place and [err]. *)
Definition rounded_power (y : float) (x : Q) (err : R) : Prop :=
  exists neg n,
    0 <= n
    /\ y = of_decimal neg n (-4)
    /\ (Rabs (Q2R (decimal4 neg n) - Rpower 10 (Q2R x)) <= / 20000 + err)%R.

(* ================================================================== *)
(** ** Worlds used as concrete inputs *)
(* ================================================================== *)

(** A stand-in for the implementation's [Math.pow]: the correctly
    rounded power of ten at the four exponents the examples need, and
    [10] elsewhere. *)
Definition pow_table (base exponent : float) : float :=
  if (exponent =? -1)%float then 0.1%float
  else if (exponent =? -0.5)%float then 0.31622776601683794%float
  else if (exponent =? -3)%float then 0.001%float
  else if (exponent =? 0.025)%float then 1.0592537251772889%float
  else 10%float.

(** What [ffmpeg] prints for a window at RMS -20 dB and peak -10 dB. *)
Definition steady_stats : string :=
  "[Parsed_astats_1 @ 0x55d0] RMS level dB: -20.000000
[Parsed_astats_1 @ 0x55d0] Peak level dB: -10.000000
".

(** What [ffmpeg] prints for a window of digital silence. *)
Definition silent_stats : string :=
  "[Parsed_astats_1 @ 0x55d0] RMS level dB: -inf
[Parsed_astats_1 @ 0x55d0] Peak level dB: -inf
".

(** What it prints for a window that peaks above full scale. *)
Definition hot_stats : string :=
  "[Parsed_astats_1 @ 0x55d0] RMS level dB: -3.000000
[Parsed_astats_1 @ 0x55d0] Peak level dB: 0.500000
".

(** What it prints when it prints no statistics. *)
Definition empty_stats : string := "size=N/A time=00:00:00.00 bitrate=N/A
".

(** A 30 second track, every window at RMS -20 dB and peak -10 dB; the
    network and the file system do what they are asked. *)
Definition steady_world : World := {|
  dirname := "/app";
  existsSync := fun _ => true;
  mkdirSync := fun _ => None;
  axios := fun _ => None;
  pipe_to_file := fun _ => Returns tt;
  unlinkSync := fun _ => None;
  execAsync := fun c =>
    match c with
    | Ffprobe _ => ExecOk "30.000000
"
    | Ffmpeg _ _ _ => ExecOk steady_stats
    end;
  Math_random := fun _ => (0.5, 0.25, 0.75)%float |}.

(** [w] with other answers from the two commands. *)
Definition with_exec (w : World) (exec : command -> exec_result) : World := {|
  dirname := dirname w;
  existsSync := existsSync w;
  mkdirSync := mkdirSync w;
  axios := axios w;
  pipe_to_file := pipe_to_file w;
  unlinkSync := unlinkSync w;
  execAsync := exec;
  Math_random := Math_random w |}.

(** The steady track when the [ffmpeg] call of the window at [0.2] fails. *)
Definition glitch_world : World :=
  with_exec steady_world (fun c =>
    match c with
    | Ffmpeg _ ss _ =>
        if (ss =? 0.2)%float then ExecErr "Command failed: ffmpeg"
        else execAsync steady_world c
    | _ => execAsync steady_world c
    end).

(** A file for which [ffprobe] prints no duration. *)
Definition unknown_duration_world : World :=
  with_exec steady_world (fun c =>
    match c with
    | Ffprobe _ => ExecOk "N/A
"
    | _ => execAsync steady_world c
    end).

(** A world in which [ffprobe] cannot be run. *)
Definition no_ffprobe_world : World :=
  with_exec steady_world (fun c =>
    match c with
    | Ffprobe _ => ExecErr "Command failed: ffprobe"
    | _ => execAsync steady_world c
    end).

(** A world in which [ffmpeg] prints [stats] for every window. *)
Definition world_printing (stats : string) : World :=
  with_exec steady_world (fun c =>
    match c with
    | Ffmpeg _ _ _ => ExecOk stats
    | _ => execAsync steady_world c
    end).

(** A world in which the temp file cannot be deleted. *)
Definition readonly_world : World := {|
  dirname := dirname steady_world;
  existsSync := existsSync steady_world;
  mkdirSync := mkdirSync steady_world;
  axios := axios steady_world;
  pipe_to_file := pipe_to_file steady_world;
  unlinkSync := fun _ => Some "EPERM: operation not permitted, unlink";
  execAsync := execAsync steady_world;
  Math_random := Math_random steady_world |}.

(** The result of analysing the steady track fetched as asset 123. *)
Definition steady_result : AnalysisResult.t :=
  {| AnalysisResult.assetId := "123";
     AnalysisResult.duration := 30;
     AnalysisResult.interval := interval;
     AnalysisResult.samples := 300;
     AnalysisResult.data :=
       sample_at pow_table steady_world "/app/temp/123.mp3" <$> seqZ 0 300 |}.

(* ================================================================== *)
(** ** Evaluations of the library model *)
(* ================================================================== *)

Example of_decimal_tenth : of_decimal false 1000 (-4) = 0.1%float.
Proof. reflexivity. Qed.

Example floor_300 : Math_floor (30 / 0.1)%float = IntFin 300.
Proof. reflexivity. Qed.

Example floor_03 : Math_floor (0.3 / 0.1)%float = IntFin 2.
Proof. reflexivity. Qed.

Example toFixed_3_tenths : toFixed (of_Z 3 * 0.1)%float 2 = FxDec false 30 2.
Proof. reflexivity. Qed.

Example toFixed_tie : toFixed 0.5%float 0 = FxDec false 1 0.
Proof. reflexivity. Qed.

Example toFixed_neg : toFixed (-0.00001)%float 2 = FxDec true 0 2.
Proof. reflexivity. Qed.

Example parseFloat_30 : parseFloat "30.000000"%string = 30%float.
Proof. reflexivity. Qed.

Example parseFloat_neg : parseFloat "-20.5"%string = (-20.5)%float.
Proof. reflexivity. Qed.

Example parseFloat_exp : parseFloat " 1.5e3xyz"%string = 1500%float.
Proof. reflexivity. Qed.

Example parseFloat_dash : parseFloat "-"%string = nan.
Proof. reflexivity. Qed.

Example parseFloat_na : parseFloat "N/A"%string = nan.
Proof. reflexivity. Qed.

Example match_label_ok :
  match_label "RMS level dB: "%string "[astats] RMS level dB: -23.5 dB"%string = Some "-23.5"%string.
Proof. reflexivity. Qed.

Example match_label_inf :
  match_label "RMS level dB: "%string "RMS level dB: -inf"%string = Some "-"%string.
Proof. reflexivity. Qed.

Example match_label_none :
  match_label "RMS level dB: "%string "RMS level dB: nan"%string = None.
Proof. reflexivity. Qed.

(* ================================================================== *)
(** ** The loops of [analyzeAudio] in closed form *)
(* ================================================================== *)

Section Loops.

Variable pow_approx : float -> float -> float.
Variable w : World.
Variable audioPath : string.

#[local] Abbreviation settled := (settled pow_approx w audioPath).

Lemma chunkPromises_fin (N : Z) (n : nat) (i j : Z) :
  chunkPromises (IntFin N) n i j
  = window <$> seqZ (i + j) (Z.min (Z.of_nat n) (N - (i + j))).
Proof.
  revert j. induction n as [|n IH]; intros j; simpl chunkPromises.
  - rewrite seqZ_nil by lia. reflexivity.
  - unfold lt_integral. destruct (Z.ltb_spec (i + j) N) as [Hlt|Hge].
    + rewrite (seqZ_cons (i + j)) by lia. rewrite fmap_cons. f_equal.
      rewrite IH. f_equal. f_equal; lia.
    + rewrite seqZ_nil by lia. reflexivity.
Qed.

Lemma batches_S numSamples (fuel : nat) (i : Z) samples log :
  batches pow_approx w audioPath numSamples (S fuel) i samples log
  = if lt_integral i numSamples then
      let promises := chunkPromises numSamples 10 i 0 in
      batches pow_approx w audioPath numSamples fuel (i + 10)
              (samples ++ (settled <$> promises))
              (log ++ (Started ∘ fst <$> promises) ++ [Joined (fst <$> promises)])
    else Some (samples, log).
Proof. reflexivity. Qed.

Lemma fst_window (l : list Z) : fst <$> (window <$> l) = l.
Proof. induction l as [|k l IH]; [reflexivity|]. rewrite !fmap_cons, IH. reflexivity. Qed.

Lemma started_window (l : list Z) : Started ∘ fst <$> (window <$> l) = Started <$> l.
Proof. induction l as [|k l IH]; [reflexivity|]. rewrite !fmap_cons, IH. reflexivity. Qed.

Lemma batches_fin (N : Z) (fuel : nat) (b : Z) samples log :
  0 <= b ->
  (Z.to_nat (batch_count N - b) < fuel)%nat ->
  batches pow_approx w audioPath (IntFin N) fuel (10 * b) samples log
  = Some (samples ++ (settled ∘ window <$> seqZ (10 * b) (N - 10 * b)),
          log ++ concat (batch_log ∘ batch_windows N <$> seqZ b (batch_count N - b))).
Proof.
  unfold batch_count.
  revert b samples log. induction fuel as [|fuel IH]; intros b samples log Hb Hfuel.
  { lia. }
  rewrite batches_S. cbv zeta. unfold lt_integral.
  destruct (Z.ltb_spec (10 * b) N) as [Hlt|Hge].
  - assert (Hcnt : b < (N + 9) / 10) by (clear - Hlt; Z.div_mod_to_equations; lia).
    replace (10 * b + 10) with (10 * (b + 1)) by lia.
    rewrite IH by lia.
    rewrite chunkPromises_fin, fst_window, started_window.
    replace (10 * b + 0) with (10 * b) by lia.
    change (Z.of_nat 10) with 10.
    rewrite (seqZ_cons b) by lia. rewrite fmap_cons. simpl concat.
    replace (Z.succ b) with (b + 1) by lia.
    replace (Z.pred ((N + 9) / 10 - b)) with ((N + 9) / 10 - (b + 1)) by lia.
    f_equal. f_equal.
    + rewrite <- app_assoc. f_equal. rewrite <- list_fmap_compose.
      destruct (Z.le_gt_cases 10 (N - 10 * b)) as [Hbig|Hsmall].
      * rewrite Z.min_l by lia.
        assert (Hsplit : seqZ (10 * b) (N - 10 * b)
                         = seqZ (10 * b) 10 ++ seqZ (10 * (b + 1)) (N - 10 * (b + 1))).
        { replace (N - 10 * b) with (10 + (N - 10 * (b + 1))) by lia.
          rewrite seqZ_app by lia. do 2 f_equal; lia. }
        rewrite Hsplit, fmap_app. reflexivity.
      * rewrite Z.min_r by lia.
        rewrite (seqZ_nil (10 * (b + 1))) by lia.
        rewrite app_nil_r. reflexivity.
    + unfold compose at 2. unfold batch_log at 2. unfold batch_windows at 2.
      rewrite <- !app_assoc. reflexivity.
  - assert (Hcnt : (N + 9) / 10 <= b) by (clear - Hge; Z.div_mod_to_equations; lia).
    rewrite !seqZ_nil by lia. simpl. rewrite !app_nil_r. reflexivity.
Qed.

(** Against [+Infinity] the loop is never left. *)
Lemma batches_inf (fuel : nat) (i : Z) samples log :
  batches pow_approx w audioPath (IntInf false) fuel i samples log = None.
Proof.
  revert i samples log. induction fuel as [|fuel IH]; intros; simpl; auto.
Qed.

Lemma peak_batch (ks1 ks : list Z) (p : nat) (log : list event) :
  (peak_in_flight p ((Started <$> ks1) ++ Joined ks :: log)
   <= Nat.max (p + length ks1)
              (peak_in_flight (p + length ks1 - length ks) log))%nat.
Proof.
  revert p. induction ks1 as [|k ks1 IH]; intros p.
  - cbn [fmap list_fmap app peak_in_flight length]. rewrite Nat.add_0_r. lia.
  - rewrite fmap_cons. cbn [app peak_in_flight length].
    specialize (IH (S p)).
    replace (S p + length ks1)%nat with (p + S (length ks1))%nat in IH by lia. lia.
Qed.

Lemma peak_batches (bs : list (list Z)) :
  Forall (fun ks => (length ks <= 10)%nat) bs ->
  (peak_in_flight 0 (concat (batch_log <$> bs)) <= 10)%nat.
Proof.
  induction 1 as [|ks bs Hks _ IH]; [simpl; lia|].
  rewrite fmap_cons. cbn [concat]. unfold batch_log at 1.
  rewrite <- app_assoc. cbn [app].
  pose proof (peak_batch ks ks 0 (concat (batch_log <$> bs))) as Hp.
  rewrite Nat.add_0_l, Nat.sub_diag in Hp. lia.
Qed.

Lemma batch_windows_length (N b : Z) : (length (batch_windows N b) <= 10)%nat.
Proof. unfold batch_windows. rewrite length_seqZ. lia. Qed.

End Loops.

(** [analyzeAudio] without its loops. *)
Lemma analyzeAudio_run_closed pow_approx w audioPath :
  analyzeAudio_run pow_approx w audioPath
  = match execAsync w (Ffprobe audioPath) with
    | ExecErr message => (Throws ("Audio analysis failed: " +:+ message), [])
    | ExecOk durationOutput =>
        let duration := parseFloat (trim durationOutput) in
        match Math_floor (duration / interval) with
        | IntInf false => (Pending, [])
        | n =>
            let N := window_count n in
            (Returns {| AnalysisResult.assetId := basename audioPath ".mp3";
                        AnalysisResult.duration := duration;
                        AnalysisResult.interval := interval;
                        AnalysisResult.samples := Z.to_nat N;
                        AnalysisResult.data := sample_at pow_approx w audioPath <$> seqZ 0 N |},
             concat (batch_log ∘ batch_windows N <$> seqZ 0 (batch_count N)))
        end
    end.
Proof.
  unfold analyzeAudio_run.
  destruct (execAsync w (Ffprobe audioPath)) as [out|message]; [|reflexivity].
  cbv zeta.
  destruct (Math_floor (parseFloat (trim out) / interval)) as [|[|]|N].
  - reflexivity.
  - reflexivity.
  - unfold rounds. rewrite batches_inf. reflexivity.
  - unfold rounds, window_count.
    pose proof (batches_fin pow_approx w audioPath N (S (Z.to_nat N)) 0 [] []) as H.
    change (10 * 0) with 0 in H. rewrite H; clear H.
    + simpl app. rewrite Z.sub_0_r, length_fmap, length_seqZ, Z.sub_0_r. reflexivity.
    + lia.
    + unfold batch_count. Z.div_mod_to_equations. lia.
Qed.


(* ================================================================== *)
(** ** Window count and order (C1, C9) *)
(* ================================================================== *)

Lemma analyzeSample_time pow_approx w audioPath time duration rnd :
  Sample.time (analyzeSample pow_approx w audioPath time duration rnd)
  = parseFloat_fixed (toFixed time 2).
Proof.
  unfold analyzeSample.
  destruct (execAsync w (Ffmpeg audioPath time duration)); [|reflexivity].
  destruct rnd as [[r1 r2] r3]. reflexivity.
Qed.

Lemma analyzeAudio_fin pow_approx w audioPath out N :
  execAsync w (Ffprobe audioPath) = ExecOk out ->
  Math_floor (parseFloat (trim out) / interval) = IntFin N ->
  analyzeAudio_run pow_approx w audioPath
  = (Returns {| AnalysisResult.assetId := basename audioPath ".mp3";
                AnalysisResult.duration := parseFloat (trim out);
                AnalysisResult.interval := interval;
                AnalysisResult.samples := Z.to_nat N;
                AnalysisResult.data := sample_at pow_approx w audioPath <$> seqZ 0 N |},
     concat (batch_log ∘ batch_windows N <$> seqZ 0 (batch_count N))).
Proof.
  intros Hprobe Hfloor. rewrite analyzeAudio_run_closed, Hprobe. cbv zeta.
  rewrite Hfloor. reflexivity.
Qed.

(** C1: when the duration probe prints a duration [D] and
    [Math.floor(D / 0.1)] is the integer [N], [analyzeAudio] returns a
    result whose [data] has exactly [N] entries, entry [i] being the
    sample of window [i] (so at the time of window [i], whatever its
    [ffmpeg] call did), and whose [samples] is the length of [data]. *)
Theorem analyzeAudio_window_count pow_approx w audioPath out N :
  execAsync w (Ffprobe audioPath) = ExecOk out ->
  Math_floor (parseFloat (trim out) / interval) = IntFin N ->
  exists r,
    analyzeAudio pow_approx w audioPath = Returns r
    /\ length (AnalysisResult.data r) = Z.to_nat N
    /\ AnalysisResult.samples r = length (AnalysisResult.data r)
    /\ forall i, 0 <= i < N ->
         exists s, AnalysisResult.data r !! Z.to_nat i = Some s
                   /\ s = sample_at pow_approx w audioPath i
                   /\ Sample.time s = parseFloat_fixed (toFixed (of_Z i * interval) 2).
Proof.
  intros Hprobe Hfloor. unfold analyzeAudio.
  rewrite (analyzeAudio_fin _ _ _ _ _ Hprobe Hfloor). cbn [fst].
  eexists. split; [reflexivity|]. cbn [AnalysisResult.data AnalysisResult.samples].
  rewrite length_fmap, length_seqZ. repeat split.
  intros i Hi. exists (sample_at pow_approx w audioPath i).
  rewrite list_lookup_fmap, lookup_seqZ_lt by lia.
  rewrite Z2Nat.id, Z.add_0_l by lia. repeat split.
  apply analyzeSample_time.
Qed.

(** The steady track is such an input. *)
Lemma analyzeAudio_window_count_witness :
  exists r,
    analyzeAudio pow_table steady_world "/app/temp/123.mp3" = Returns r
    /\ length (AnalysisResult.data r) = Z.to_nat 300
    /\ AnalysisResult.samples r = length (AnalysisResult.data r)
    /\ forall i, 0 <= i < 300 ->
         exists s, AnalysisResult.data r !! Z.to_nat i = Some s
                   /\ s = sample_at pow_table steady_world "/app/temp/123.mp3" i
                   /\ Sample.time s = parseFloat_fixed (toFixed (of_Z i * interval) 2).
Proof.
  apply (analyzeAudio_window_count pow_table steady_world "/app/temp/123.mp3"
           "30.000000
" 300); reflexivity.
Defined.

(** C9: the windows are analysed in batches of ten consecutive indices
    (the last one may be shorter): the calls of a batch are all started,
    then joined, before the first call of the next batch, so that at most
    ten calls are in flight at any moment. *)
Theorem analyzeAudio_batches pow_approx w audioPath out N :
  execAsync w (Ffprobe audioPath) = ExecOk out ->
  Math_floor (parseFloat (trim out) / interval) = IntFin N ->
  let log := snd (analyzeAudio_run pow_approx w audioPath) in
  log = concat ((fun b => (Started <$> batch_windows N b) ++ [Joined (batch_windows N b)])
                  <$> seqZ 0 (batch_count N))
  /\ (forall b, batch_windows N b = seqZ (10 * b) (Z.min 10 (N - 10 * b)))
  /\ (peak_in_flight 0 log <= 10)%nat.
Proof.
  intros Hprobe Hfloor log. subst log.
  rewrite (analyzeAudio_fin _ _ _ _ _ Hprobe Hfloor). cbn [snd].
  split; [reflexivity|]. split; [reflexivity|].
  rewrite list_fmap_compose. apply peak_batches.
  apply Forall_fmap, Forall_forall. intros b _. apply batch_windows_length.
Qed.

(** The thirty batches of the steady track. *)
Lemma analyzeAudio_batches_witness :
  let log := snd (analyzeAudio_run pow_table steady_world "/app/temp/123.mp3") in
  log = concat ((fun b => (Started <$> batch_windows 300 b) ++ [Joined (batch_windows 300 b)])
                  <$> seqZ 0 (batch_count 300))
  /\ (forall b, batch_windows 300 b = seqZ (10 * b) (Z.min 10 (300 - 10 * b)))
  /\ (peak_in_flight 0 log <= 10)%nat.
Proof.
  apply (analyzeAudio_batches pow_table steady_world "/app/temp/123.mp3"
           "30.000000
" 300); reflexivity.
Defined.

(* ================================================================== *)
(** ** Failures: one window (C5), the duration probe (C6) *)
(* ================================================================== *)

Lemma sample_at_agree pow_approx w w' audioPath k :
  execAsync w' (Ffmpeg audioPath (of_Z k * interval) interval)
  = execAsync w (Ffmpeg audioPath (of_Z k * interval) interval) ->
  let s' := sample_at pow_approx w' audioPath k in
  let s := sample_at pow_approx w audioPath k in
  Sample.time s' = Sample.time s
  /\ Sample.amplitude s' = Sample.amplitude s
  /\ Sample.peak s' = Sample.peak s
  /\ (Math_random w' k = Math_random w k -> s' = s).
Proof.
  intros Hexec. cbv zeta. unfold sample_at, analyzeSample. rewrite Hexec.
  destruct (execAsync w (Ffmpeg audioPath (of_Z k * interval) interval)).
  - destruct (Math_random w' k) as [[a1 a2] a3], (Math_random w k) as [[b1 b2] b3].
    repeat split. intros [= -> -> ->]. reflexivity.
  - repeat split.
Qed.

(** C5: when the [ffmpeg] call of a window fails, [analyzeSample]
    returns the sample with [amplitude = bass = mid = high = peak = 0] at
    the window's time rounded to two decimals, and throws nothing; in the
    result of [analyzeAudio] that sample stands at the window's index,
    [samples] is what it is without the failure, and every other entry
    has the time, amplitude and peak it has in the run without the
    failure, and is that entry altogether when [Math.random] gives its
    window the same three numbers. *)
Theorem analyzeSample_failure_absorbed pow_approx w w' audioPath out N i message :
  execAsync w (Ffprobe audioPath) = ExecOk out ->
  execAsync w' (Ffprobe audioPath) = ExecOk out ->
  Math_floor (parseFloat (trim out) / interval) = IntFin N ->
  0 <= i < N ->
  execAsync w' (Ffmpeg audioPath (of_Z i * interval) interval) = ExecErr message ->
  (forall k, 0 <= k < N -> k <> i ->
     execAsync w' (Ffmpeg audioPath (of_Z k * interval) interval)
     = execAsync w (Ffmpeg audioPath (of_Z k * interval) interval)) ->
  (forall time duration rnd,
     execAsync w' (Ffmpeg audioPath time duration) = ExecErr message ->
     analyzeSample pow_approx w' audioPath time duration rnd
     = {| Sample.time := parseFloat_fixed (toFixed time 2);
          Sample.amplitude := 0; Sample.bass := 0; Sample.mid := 0;
          Sample.high := 0; Sample.peak := 0 |})
  /\ exists r r',
       analyzeAudio pow_approx w audioPath = Returns r
       /\ analyzeAudio pow_approx w' audioPath = Returns r'
       /\ AnalysisResult.samples r' = AnalysisResult.samples r
       /\ length (AnalysisResult.data r') = length (AnalysisResult.data r)
       /\ AnalysisResult.data r' !! Z.to_nat i
          = Some {| Sample.time := parseFloat_fixed (toFixed (of_Z i * interval) 2);
                    Sample.amplitude := 0; Sample.bass := 0; Sample.mid := 0;
                    Sample.high := 0; Sample.peak := 0 |}
       /\ forall k : nat, k <> Z.to_nat i ->
            match AnalysisResult.data r' !! k, AnalysisResult.data r !! k with
            | Some s', Some s =>
                Sample.time s' = Sample.time s
                /\ Sample.amplitude s' = Sample.amplitude s
                /\ Sample.peak s' = Sample.peak s
                /\ (Math_random w' (Z.of_nat k) = Math_random w (Z.of_nat k) -> s' = s)
            | None, None => True
            | _, _ => False
            end.
Proof.
  intros Hprobe Hprobe' Hfloor Hi Hfail Hsame. split.
  { intros time duration rnd Hexec. unfold analyzeSample. rewrite Hexec. reflexivity. }
  unfold analyzeAudio.
  rewrite (analyzeAudio_fin _ _ _ _ _ Hprobe Hfloor).
  rewrite (analyzeAudio_fin _ _ _ _ _ Hprobe' Hfloor). cbn [fst].
  do 2 eexists. split; [reflexivity|]. split; [reflexivity|].
  cbn [AnalysisResult.data AnalysisResult.samples].
  split; [reflexivity|]. split; [rewrite !length_fmap; reflexivity|]. split.
  - rewrite list_lookup_fmap, lookup_seqZ_lt by lia.
    rewrite Z2Nat.id, Z.add_0_l by lia. cbn [fmap option_fmap option_map].
    unfold sample_at, analyzeSample. rewrite Hfail. reflexivity.
  - intros k Hk. rewrite !list_lookup_fmap.
    destruct (Z.lt_ge_cases (Z.of_nat k) N) as [Hlt|Hge].
    + rewrite lookup_seqZ_lt by lia. cbn [fmap option_fmap option_map].
      rewrite Z.add_0_l. apply sample_at_agree. apply Hsame; lia.
    + rewrite lookup_seqZ_ge by lia. exact I.
Qed.

Lemma glitch_only_at_2 (k : Z) :
  0 <= k < 300 -> k <> 2 ->
  execAsync glitch_world (Ffmpeg "/app/temp/123.mp3" (of_Z k * interval) interval)
  = execAsync steady_world (Ffmpeg "/app/temp/123.mp3" (of_Z k * interval) interval).
Proof.
  intros Hk Hne.
  assert (Hb : forallb (fun k => (k =? 2) || negb (of_Z k * interval =? 0.2)%float)
                       (seqZ 0 300) = true) by (vm_compute; reflexivity).
  rewrite forallb_forall in Hb. specialize (Hb k).
  assert (Hin : In k (seqZ 0 300)) by (apply list_elem_of_In, elem_of_seqZ; lia).
  apply Hb in Hin. apply orb_prop in Hin. destruct Hin as [Heq|Hneq]; [lia|].
  apply negb_true_iff in Hneq.
  unfold glitch_world, with_exec. cbn [execAsync]. rewrite Hneq. reflexivity.
Qed.

(** The steady track with and without the failure of window 2. *)
Lemma analyzeSample_failure_absorbed_witness :
  exists r r',
    analyzeAudio pow_table steady_world "/app/temp/123.mp3" = Returns r
    /\ analyzeAudio pow_table glitch_world "/app/temp/123.mp3" = Returns r'
    /\ AnalysisResult.samples r' = AnalysisResult.samples r
    /\ length (AnalysisResult.data r') = length (AnalysisResult.data r)
    /\ AnalysisResult.data r' !! Z.to_nat 2
       = Some {| Sample.time := parseFloat_fixed (toFixed (of_Z 2 * interval) 2);
                 Sample.amplitude := 0; Sample.bass := 0; Sample.mid := 0;
                 Sample.high := 0; Sample.peak := 0 |}
    /\ forall k : nat, k <> Z.to_nat 2 ->
         match AnalysisResult.data r' !! k, AnalysisResult.data r !! k with
         | Some s', Some s =>
             Sample.time s' = Sample.time s
             /\ Sample.amplitude s' = Sample.amplitude s
             /\ Sample.peak s' = Sample.peak s
             /\ (Math_random glitch_world (Z.of_nat k)
                 = Math_random steady_world (Z.of_nat k) -> s' = s)
         | None, None => True
         | _, _ => False
         end.
Proof.
  apply (analyzeSample_failure_absorbed pow_table steady_world glitch_world
           "/app/temp/123.mp3" "30.000000
" 300 2 "Command failed: ffmpeg");
    [reflexivity | reflexivity | reflexivity | lia | reflexivity | apply glitch_only_at_2].
Defined.

(** C6, as the specification states it, fails: when [ffprobe] prints
    [N/A] the duration is [NaN], and [analyzeAudio] returns a result
    with no samples where the specification has it abort. *)
Lemma analyzeAudio_unparseable_duration_returns :
  execAsync unknown_duration_world (Ffprobe "/app/temp/123.mp3") = ExecOk "N/A
"
  /\ parseFloat (trim "N/A
") = nan
  /\ analyzeAudio pow_table unknown_duration_world "/app/temp/123.mp3"
     = Returns {| AnalysisResult.assetId := "123";
                  AnalysisResult.duration := nan;
                  AnalysisResult.interval := interval;
                  AnalysisResult.samples := 0;
                  AnalysisResult.data := [] |}.
Proof. repeat split. Qed.

(** C6, amended: [analyzeAudio] aborts, with the error
    ["Audio analysis failed: " + message], exactly when the [ffprobe]
    command fails with [message]; when the command succeeds and its
    output does not parse as a number, the duration is [NaN] and the
    result has no samples. *)
Theorem analyzeAudio_aborts_on_probe_error pow_approx w audioPath :
  (forall message,
     execAsync w (Ffprobe audioPath) = ExecErr message ->
     analyzeAudio pow_approx w audioPath = Throws ("Audio analysis failed: " +:+ message))
  /\ (forall message,
        analyzeAudio pow_approx w audioPath = Throws message ->
        exists m, execAsync w (Ffprobe audioPath) = ExecErr m
                  /\ message = "Audio analysis failed: " +:+ m)
  /\ (forall out,
        execAsync w (Ffprobe audioPath) = ExecOk out ->
        parseFloat (trim out) = nan ->
        analyzeAudio pow_approx w audioPath
        = Returns {| AnalysisResult.assetId := basename audioPath ".mp3";
                     AnalysisResult.duration := nan;
                     AnalysisResult.interval := interval;
                     AnalysisResult.samples := 0;
                     AnalysisResult.data := [] |}).
Proof.
  unfold analyzeAudio. rewrite analyzeAudio_run_closed.
  destruct (execAsync w (Ffprobe audioPath)) as [out|m].
  - split; [discriminate|]. split.
    + cbv zeta. destruct (Math_floor (parseFloat (trim out) / interval)) as [|[|]|N];
        cbn [fst]; discriminate.
    + intros out' [= <-] Hnan. rewrite Hnan. reflexivity.
  - split; [intros message [= <-]; reflexivity|]. split.
    + intros message [= <-]. exists m. split; reflexivity.
    + discriminate.
Qed.

(** [ffprobe] failing, and [ffprobe] printing [N/A]. *)
Lemma analyzeAudio_aborts_on_probe_error_witness :
  analyzeAudio pow_table no_ffprobe_world "/app/temp/123.mp3"
  = Throws "Audio analysis failed: Command failed: ffprobe"
  /\ analyzeAudio pow_table unknown_duration_world "/app/temp/123.mp3"
     = Returns {| AnalysisResult.assetId := basename "/app/temp/123.mp3" ".mp3";
                  AnalysisResult.duration := nan;
                  AnalysisResult.interval := interval;
                  AnalysisResult.samples := 0;
                  AnalysisResult.data := [] |}.
Proof.
  split.
  - apply (proj1 (analyzeAudio_aborts_on_probe_error pow_table no_ffprobe_world
                    "/app/temp/123.mp3")).
    reflexivity.
  - apply (proj2 (proj2 (analyzeAudio_aborts_on_probe_error pow_table
                           unknown_duration_world "/app/temp/123.mp3")) "N/A
"); reflexivity.
Defined.

(* ================================================================== *)
(** ** The cache (C7, C10) *)
(* ================================================================== *)

Section Cache.

Variable pow_approx : float -> float -> float.

Lemma analyze_handler_hit w assetId (cache : gmap string AnalysisResult.t) d :
  cache !! assetId = Some d ->
  analyze_handler pow_approx w assetId cache = (Some (Ok200 true d), cache).
Proof. intros H. unfold analyze_handler. rewrite H. reflexivity. Qed.

Lemma analyze_handler_keeps w assetId (cache cache' : gmap string AnalysisResult.t) r k d :
  analyze_handler pow_approx w assetId cache = (r, cache') ->
  cache !! k = Some d -> cache' !! k = Some d.
Proof.
  unfold analyze_handler. intros H Hk.
  destruct (cache !! assetId) as [c|] eqn:Hc; [congruence|].
  assert (Hne : assetId <> k) by congruence.
  destruct (downloadRobloxAudio w assetId) as [p| |]; [|congruence..].
  destruct (analyzeAudio pow_approx w p) as [f| |]; [|congruence..].
  destruct (unlinkSync w p); injection H as _ <-;
    rewrite lookup_insert_ne by assumption; assumption.
Qed.

Lemma serve_keeps requests (cache cache' : gmap string AnalysisResult.t) rs k d :
  serve pow_approx requests cache = (rs, cache') ->
  cache !! k = Some d -> cache' !! k = Some d.
Proof.
  revert cache rs. induction requests as [|[w a] rest IH]; intros cache rs H Hk.
  - simpl in H. congruence.
  - simpl in H.
    destruct (analyze_handler pow_approx w a cache) as [r c1] eqn:H1.
    destruct (serve pow_approx rest c1) as [rs' c2] eqn:H2.
    injection H as _ <-. eapply IH; [eassumption|].
    eapply analyze_handler_keeps; eassumption.
Qed.

Lemma analyze_handler_stores w assetId (cache cache' : gmap string AnalysisResult.t) d :
  analyze_handler pow_approx w assetId cache = (Some (Ok200 false d), cache') ->
  cache' !! assetId = Some d.
Proof.
  unfold analyze_handler. intros H.
  destruct (cache !! assetId) as [c|] eqn:Hc; [congruence|].
  destruct (downloadRobloxAudio w assetId) as [p| |]; [|congruence..].
  destruct (analyzeAudio pow_approx w p) as [f| |]; [|congruence..].
  destruct (unlinkSync w p); [congruence|].
  injection H as <- <-. apply lookup_insert_eq.
Qed.

End Cache.

(** C7: after a request that analysed the asset and answered with
    [cached: false] and [data], any later request for the same asset,
    whatever was requested in between and whatever the world is by then
    (nothing is fetched or analysed again), answers [cached: true] with
    the same [data]. *)
Theorem second_request_is_cached pow_approx w1 w2 assetId d requests rs
    (cache cache1 cache2 : gmap string AnalysisResult.t) :
  analyze_handler pow_approx w1 assetId cache = (Some (Ok200 false d), cache1) ->
  serve pow_approx requests cache1 = (rs, cache2) ->
  analyze_handler pow_approx w2 assetId cache2 = (Some (Ok200 true d), cache2).
Proof.
  intros H1 Hserve. apply analyze_handler_hit.
  eapply serve_keeps; [eassumption|].
  eapply analyze_handler_stores; eassumption.
Qed.

(** Asset 123 is analysed, asset 456 is requested, and asset 123 is
    requested again in a world where [ffprobe] cannot be run. *)
Lemma second_request_is_cached_witness :
  analyze_handler pow_table no_ffprobe_world "123"
    (snd (serve pow_table [(steady_world, "456"%string)]
            (snd (analyze_handler pow_table steady_world "123" ∅))))
  = (Some (Ok200 true steady_result),
     snd (serve pow_table [(steady_world, "456"%string)]
            (snd (analyze_handler pow_table steady_world "123" ∅)))).
Proof.
  apply (second_request_is_cached pow_table steady_world no_ffprobe_world "123"
           steady_result [(steady_world, "456"%string)]
           (fst (serve pow_table [(steady_world, "456"%string)]
                   (snd (analyze_handler pow_table steady_world "123" ∅))))
           ∅ (snd (analyze_handler pow_table steady_world "123" ∅))).
  - vm_compute. reflexivity.
  - apply surjective_pairing.
Defined.

(** C10: when deleting the temp file fails after the result was stored,
    the request is answered with status 500 and [success: false], the
    cache keeps the result, and the next request for the asset is
    answered [cached: true] with it. *)
Theorem unlink_failure_leaves_cache_entry pow_approx w assetId audioPath r message
    (cache : gmap string AnalysisResult.t) :
  cache !! assetId = None ->
  downloadRobloxAudio w assetId = Returns audioPath ->
  analyzeAudio pow_approx w audioPath = Returns r ->
  unlinkSync w audioPath = Some message ->
  analyze_handler pow_approx w assetId cache
  = (Some (Error500 message), <[assetId := r]> cache)
  /\ forall w', analyze_handler pow_approx w' assetId (<[assetId := r]> cache)
                = (Some (Ok200 true r), <[assetId := r]> cache).
Proof.
  intros Hmiss Hdl Han Hrm. split.
  - unfold analyze_handler. rewrite Hmiss, Hdl, Han, Hrm. reflexivity.
  - intros w'. apply analyze_handler_hit, lookup_insert_eq.
Qed.

(** Asset 123 in a world where the temp file cannot be deleted. *)
Lemma unlink_failure_leaves_cache_entry_witness :
  analyze_handler pow_table readonly_world "123" ∅
  = (Some (Error500 "EPERM: operation not permitted, unlink"),
     <["123"%string := steady_result]> ∅)
  /\ forall w', analyze_handler pow_table w' "123" (<["123"%string := steady_result]> ∅)
                = (Some (Ok200 true steady_result), <["123"%string := steady_result]> ∅).
Proof.
  apply (unlink_failure_leaves_cache_entry pow_table readonly_world "123"
           "/app/temp/123.mp3" steady_result
           "EPERM: operation not permitted, unlink" ∅).
  - reflexivity.
  - reflexivity.
  - vm_compute. reflexivity.
  - reflexivity.
Defined.

(* ================================================================== *)
(** ** Levels: dB to linear, rounded to four decimals (C3, C4, C8) *)
(* ================================================================== *)

Lemma Qpower_2_pos (e : Z) : (0 < Qpower 2 e)%Q.
Proof. apply Qpower_0_lt. reflexivity. Qed.

Lemma Qfloor_unique (x : Q) (n : Z) :
  (inject_Z n <= x)%Q -> (x < inject_Z (n + 1))%Q -> Qfloor x = n.
Proof.
  intros Hle Hlt.
  assert (H1 : n <= Qfloor x).
  { rewrite <- (Qfloor_Z n). apply Qfloor_resp_le. exact Hle. }
  assert (H2 : Qfloor x < n + 1).
  { rewrite Zlt_Qlt. eapply Qle_lt_trans; [apply Qfloor_le|exact Hlt]. }
  lia.
Qed.

(** [toFixed] of a positive Number below [10^21], from bounds on its value. *)
Lemma toFixed_round (x : float) (k : nat) (q : Q) (n : Z) :
  value x = Some q ->
  (0 < q)%Q -> (q < inject_Z (10 ^ 21))%Q ->
  (inject_Z n - (1 # 2) <= q * inject_Z (10 ^ Z.of_nat k))%Q ->
  (q * inject_Z (10 ^ Z.of_nat k) < inject_Z n + (1 # 2))%Q ->
  toFixed x k = FxDec false n k.
Proof.
  unfold value, toFixed. intros Hv Hpos Hbig Hlo Hhi.
  destruct (Prim2SF x) as [s|s| |s m e]; try discriminate.
  - injection Hv as <-. exfalso. revert Hpos. apply Qlt_irrefl.
  - injection Hv as <-.
    pose proof (Qpower_2_pos e) as H2.
    destruct s; cbn [cond_Zopp] in *.
    + exfalso. rewrite inject_Z_opp in Hpos.
      assert (0 < inject_Z (Z.pos m) * 2 ^ e)%Q.
      { apply Qmult_lt_0_compat; [|exact H2]. unfold Qlt; simpl; lia. }
      lra.
    + destruct (Qle_bool (inject_Z (10 ^ 21)) (inject_Z (Z.pos m) * 2 ^ e)) eqn:Hb.
      * apply Qle_bool_iff in Hb. exfalso. apply (Qlt_irrefl (inject_Z (10 ^ 21))).
        eapply Qle_lt_trans; eassumption.
      * f_equal. apply Qfloor_unique.
        -- lra.
        -- rewrite inject_Z_plus. change (inject_Z 1) with 1%Q. lra.
Qed.

(** Closed comparisons of rationals, by computation. *)
Ltac Qclosed := vm_compute; first [reflexivity | discriminate].

Lemma toFixed4_approx (y : float) (c eps : Q) (n : Z) :
  approx y c eps ->
  (0 < c - eps)%Q -> (c + eps < inject_Z (10 ^ 21))%Q ->
  (inject_Z n - (1 # 2) <= (c - eps) * 10000)%Q ->
  ((c + eps) * 10000 < inject_Z n + (1 # 2))%Q ->
  toFixed y 4 = FxDec false n 4.
Proof.
  intros (q & Hv & Hq) Hpos Hbig Hlo Hhi.
  apply Qabs_diff_Qle_condition in Hq. destruct Hq as [Hq1 Hq2].
  apply (toFixed_round y 4 q n Hv).
  - lra.
  - lra.
  - change (inject_Z (10 ^ Z.of_nat 4)) with 10000%Q. lra.
  - change (inject_Z (10 ^ Z.of_nat 4)) with 10000%Q. lra.
Qed.

(** The two levels [analyzeSample] returns when [ffmpeg] ran. *)
Lemma analyzeSample_levels pow_approx w audioPath time duration rnd stdout :
  execAsync w (Ffmpeg audioPath time duration) = ExecOk stdout ->
  let rmsDb := match match_label "RMS level dB: " stdout with
               | Some g => parseFloat g | None => (-60)%float end in
  let peakDb := match match_label "Peak level dB: " stdout with
                | Some g => parseFloat g | None => (-60)%float end in
  let s := analyzeSample pow_approx w audioPath time duration rnd in
  Sample.amplitude s = parseFloat_fixed (toFixed (Math_pow pow_approx 10 (rmsDb / 20)) 4)
  /\ Sample.peak s = parseFloat_fixed (toFixed (Math_pow pow_approx 10 (peakDb / 20)) 4).
Proof.
  intros Hexec. cbv zeta. unfold analyzeSample. rewrite Hexec.
  destruct rnd as [[r1 r2] r3]. split; reflexivity.
Qed.

Lemma Qfloor_half (a : Q) :
  (Qabs (inject_Z (Qfloor (a + (1 # 2))) - a) <= 1 # 2)%Q.
Proof.
  pose proof (Qfloor_le (a + (1 # 2))) as Hle.
  pose proof (Qlt_floor (a + (1 # 2))) as Hlt.
  rewrite inject_Z_plus in Hlt. change (inject_Z 1) with 1%Q in Hlt.
  apply Qabs_diff_Qle_condition. split; lra.
Qed.

(** [toFixed(4)] of a Number below [10^21]: the decimal it prints is
    within half a unit of the fourth place of the Number. *)
Lemma toFixed4_error (y : float) (q : Q) :
  value y = Some q ->
  (Qabs q < inject_Z (10 ^ 21))%Q ->
  exists neg n,
    toFixed y 4 = FxDec neg n 4
    /\ 0 <= n
    /\ (Qabs (decimal4 neg n - q) <= 1 # 20000)%Q.
Proof.
  unfold value, toFixed, decimal4. intros Hv Hbig.
  destruct (Prim2SF y) as [s|s| |s m e]; try discriminate.
  - injection Hv as <-. exists false, 0. repeat split; [lia|]. Qclosed.
  - injection Hv as <-.
    pose proof (Qpower_2_pos e) as H2.
    assert (Hax : (0 < inject_Z (Z.pos m) * 2 ^ e)%Q)
      by (apply Qmult_lt_0_compat; [unfold Qlt; simpl; lia|exact H2]).
    set (ax := (inject_Z (Z.pos m) * 2 ^ e)%Q) in *.
    assert (Hlt : (ax < inject_Z (10 ^ 21))%Q).
    { apply Qabs_Qlt_condition in Hbig. destruct Hbig as [Hb1 Hb2].
      destruct s; cbn [cond_Zopp] in Hb1, Hb2; rewrite ?inject_Z_opp in Hb1, Hb2;
        fold ax in Hb1, Hb2; unfold ax in *; lra. }
    destruct (Qle_bool (inject_Z (10 ^ 21)) ax) eqn:Hb.
    { apply Qle_bool_iff in Hb. lra. }
    exists s, (Qfloor (ax * inject_Z (10 ^ Z.of_nat 4) + (1 # 2))).
    split; [reflexivity|].
    change (inject_Z (10 ^ Z.of_nat 4)) with 10000%Q.
    pose proof (Qfloor_half (ax * 10000)) as Hhalf.
    set (n := Qfloor (ax * 10000 + (1 # 2))) in *.
    assert (Hn : 0 <= n).
    { unfold n. rewrite <- (Qfloor_Z 0). apply Qfloor_resp_le.
      change (inject_Z 0) with 0%Q. lra. }
    split; [exact Hn|].
    apply Qabs_diff_Qle_condition in Hhalf. destruct Hhalf as [H1 H3].
    apply Qabs_diff_Qle_condition.
    clear Hb Hlt Hbig Hax H2. unfold ax in *. clearbody n. clear ax.
    destruct s; cbn [cond_Zopp]; rewrite ?inject_Z_opp;
      generalize dependent (inject_Z (Z.pos m)); generalize dependent (2 ^ e)%Q;
      intros p M H1 H3; split; lra.
Qed.

Lemma Qabs_diff_Rabs (a b e : Q) :
  (Qabs (a - b) <= e)%Q -> (Rabs (Q2R a - Q2R b) <= Q2R e)%R.
Proof.
  intros H. apply Qabs_diff_Qle_condition in H. destruct H as [H1 H2].
  apply Qle_Rle in H1, H2. rewrite Q2R_minus in H1. rewrite Q2R_plus in H2.
  apply Rabs_le. split; Lra.lra.
Qed.

(** The level printed for the exponent [x0]: the Number of a decimal
    that is off the true power by at most half a unit of the fourth
    place and what [Math.pow] is off by. *)
Lemma level_rounded_power (pow_approx : float -> float -> float) (x0 : float) (x q : Q) :
  value (Math_pow pow_approx 10 x0) = Some q ->
  (Qabs q < inject_Z (10 ^ 21))%Q ->
  rounded_power (parseFloat_fixed (toFixed (Math_pow pow_approx 10 x0) 4)) x
    (Rabs (Q2R q - Rpower 10 (Q2R x))).
Proof.
  intros Hq Hbig.
  destruct (toFixed4_error _ _ Hq Hbig) as (neg & n & -> & Hn & Herr).
  exists neg, n. split; [exact Hn|]. split; [reflexivity|].
  apply Qabs_diff_Rabs in Herr.
  replace (Q2R (1 # 20000)) with (/ 20000)%R in Herr by (unfold Q2R; simpl; Lra.lra).
  set (P := Rpower 10 (Q2R x)) in *.
  replace (Q2R (decimal4 neg n) - P)%R
    with ((Q2R (decimal4 neg n) - Q2R q) + (Q2R q - P))%R by Lra.lra.
  eapply Rle_trans; [apply Rabs_triang|]. Lra.lra.
Qed.

Section Levels.

(** The implementation's [Math.pow], assumed accurate to six decimals at
    the two exponents of the example: [10^-1 = 0.1] and
    [10^-0.5 = 0.316227766...]. *)
Variable pow_approx : float -> float -> float.
Hypothesis pow_tenth : approx (pow_approx 10 (-1)) (1 # 10) (1 # 1000000).
Hypothesis pow_root : approx (pow_approx 10 (-0.5)) (316227766 # 1000000000) (1 # 1000000).

Lemma amplitude_at_minus_20 :
  toFixed (Math_pow pow_approx 10 (-20 / 20)) 4 = FxDec false 1000 4.
Proof using pow_tenth.
  change (Math_pow pow_approx 10 (-20 / 20)) with (pow_approx 10 (-1)).
  apply (toFixed4_approx _ _ _ 1000 pow_tenth); Qclosed.
Qed.

Lemma peak_at_minus_10 :
  toFixed (Math_pow pow_approx 10 (-10 / 20)) 4 = FxDec false 3162 4.
Proof using pow_root.
  change (Math_pow pow_approx 10 (-10 / 20)) with (pow_approx 10 (-0.5)).
  apply (toFixed4_approx _ _ _ 3162 pow_root); Qclosed.
Qed.

(** C3: [analyzeSample] returns [amplitude = 10^(rmsDb/20)] and
    [peak = 10^(peakDb/20)], each rounded to four decimals by [toFixed],
    for every parsed value: the level is the Number of a decimal with
    four places that differs from the power [10^x], [x] being the
    Number [db / 20] the code passes to [Math.pow], by at most half a
    unit of the fourth place and what the implementation's [Math.pow]
    is off by at [x]; and when [Math.pow] is known to lie within [eps]
    of [c] and all of [c - eps .. c + eps] rounds to the digits [n], the
    level is the decimal [n / 10^4].  A parsed RMS of -20 dB gives
    [toFixed] the digits 0.1000 and the amplitude 0.1; and a 30 second
    track whose every window is at RMS -20 dB and peak -10 dB gives
    [samples = 300], every amplitude 0.1 and every peak 0.3162. *)
Theorem levels_to_linear w audioPath out :
  execAsync w (Ffprobe audioPath) = ExecOk out ->
  parseFloat (trim out) = 30%float ->
  (forall ss t, exists stdout g1 g2,
      execAsync w (Ffmpeg audioPath ss t) = ExecOk stdout
      /\ match_label "RMS level dB: " stdout = Some g1
      /\ parseFloat g1 = (-20)%float
      /\ match_label "Peak level dB: " stdout = Some g2
      /\ parseFloat g2 = (-10)%float) ->
  (forall w0 path0 time duration rnd stdout g1 g2,
      execAsync w0 (Ffmpeg path0 time duration) = ExecOk stdout ->
      match_label "RMS level dB: " stdout = Some g1 ->
      match_label "Peak level dB: " stdout = Some g2 ->
      let s := analyzeSample pow_approx w0 path0 time duration rnd in
      Sample.amplitude s
      = parseFloat_fixed (toFixed (Math_pow pow_approx 10 (parseFloat g1 / 20)) 4)
      /\ Sample.peak s
         = parseFloat_fixed (toFixed (Math_pow pow_approx 10 (parseFloat g2 / 20)) 4))
  /\ (forall w0 path0 time duration rnd stdout g1 g2 x1 x2 q1 q2,
        execAsync w0 (Ffmpeg path0 time duration) = ExecOk stdout ->
        match_label "RMS level dB: " stdout = Some g1 ->
        match_label "Peak level dB: " stdout = Some g2 ->
        value (parseFloat g1 / 20) = Some x1 ->
        value (parseFloat g2 / 20) = Some x2 ->
        value (Math_pow pow_approx 10 (parseFloat g1 / 20)) = Some q1 ->
        value (Math_pow pow_approx 10 (parseFloat g2 / 20)) = Some q2 ->
        (Qabs q1 < inject_Z (10 ^ 21))%Q ->
        (Qabs q2 < inject_Z (10 ^ 21))%Q ->
        let s := analyzeSample pow_approx w0 path0 time duration rnd in
        rounded_power (Sample.amplitude s) x1 (Rabs (Q2R q1 - Rpower 10 (Q2R x1)))
        /\ rounded_power (Sample.peak s) x2 (Rabs (Q2R q2 - Rpower 10 (Q2R x2))))
  /\ (forall w0 path0 time duration rnd stdout g1 g2 c1 eps1 n1 c2 eps2 n2,
        execAsync w0 (Ffmpeg path0 time duration) = ExecOk stdout ->
        match_label "RMS level dB: " stdout = Some g1 ->
        match_label "Peak level dB: " stdout = Some g2 ->
        approx (Math_pow pow_approx 10 (parseFloat g1 / 20)) c1 eps1 ->
        approx (Math_pow pow_approx 10 (parseFloat g2 / 20)) c2 eps2 ->
        (0 < c1 - eps1 /\ c1 + eps1 < inject_Z (10 ^ 21)
         /\ inject_Z n1 - (1 # 2) <= (c1 - eps1) * 10000
         /\ (c1 + eps1) * 10000 < inject_Z n1 + (1 # 2))%Q ->
        (0 < c2 - eps2 /\ c2 + eps2 < inject_Z (10 ^ 21)
         /\ inject_Z n2 - (1 # 2) <= (c2 - eps2) * 10000
         /\ (c2 + eps2) * 10000 < inject_Z n2 + (1 # 2))%Q ->
        let s := analyzeSample pow_approx w0 path0 time duration rnd in
        Sample.amplitude s = of_decimal false n1 (-4)
        /\ Sample.peak s = of_decimal false n2 (-4))
  /\ (forall w0 path0 time duration rnd stdout g1,
        execAsync w0 (Ffmpeg path0 time duration) = ExecOk stdout ->
        match_label "RMS level dB: " stdout = Some g1 ->
        parseFloat g1 = (-20)%float ->
        toFixed (Math_pow pow_approx 10 (parseFloat g1 / 20)) 4 = FxDec false 1000 4
        /\ Sample.amplitude (analyzeSample pow_approx w0 path0 time duration rnd)
           = 0.1%float)
  /\ exists r,
       analyzeAudio pow_approx w audioPath = Returns r
       /\ AnalysisResult.samples r = 300%nat
       /\ Forall (fun s => Sample.amplitude s = 0.1%float
                           /\ Sample.peak s = 0.3162%float)
                 (AnalysisResult.data r).
Proof using pow_tenth pow_root.
  intros Hprobe Hduration Htool. split; [|split; [|split; [|split]]].
  - intros w0 path0 time duration rnd stdout g1 g2 Hexec Hrms Hpeak.
    pose proof (analyzeSample_levels pow_approx w0 path0 time duration rnd stdout Hexec) as H.
    cbv zeta in H. rewrite Hrms, Hpeak in H. exact H.
  - intros w0 path0 time duration rnd stdout g1 g2 x1 x2 q1 q2
      Hexec Hrms Hpeak _ _ Hq1 Hq2 Hbig1 Hbig2.
    pose proof (analyzeSample_levels pow_approx w0 path0 time duration rnd stdout Hexec) as H.
    cbv zeta in H |- *. rewrite Hrms, Hpeak in H. destruct H as [-> ->].
    split; apply level_rounded_power; assumption.
  - intros w0 path0 time duration rnd stdout g1 g2 c1 eps1 n1 c2 eps2 n2
      Hexec Hrms Hpeak Hpow1 Hpow2 (Hpos1 & Hbig1 & Hlo1 & Hhi1) (Hpos2 & Hbig2 & Hlo2 & Hhi2).
    pose proof (analyzeSample_levels pow_approx w0 path0 time duration rnd stdout Hexec) as H.
    cbv zeta in H |- *. rewrite Hrms, Hpeak in H. destruct H as [-> ->].
    rewrite (toFixed4_approx _ _ _ n1 Hpow1 Hpos1 Hbig1 Hlo1 Hhi1).
    rewrite (toFixed4_approx _ _ _ n2 Hpow2 Hpos2 Hbig2 Hlo2 Hhi2).
    split; reflexivity.
  - intros w0 path0 time duration rnd stdout g1 Hexec Hrms Hdb.
    pose proof (analyzeSample_levels pow_approx w0 path0 time duration rnd stdout Hexec) as H.
    cbv zeta in H. rewrite Hrms, Hdb in H. destruct H as [Ha _].
    rewrite Ha, Hdb, amplitude_at_minus_20. split; reflexivity.
  - assert (Hfloor : Math_floor (parseFloat (trim out) / interval) = IntFin 300)
      by (rewrite Hduration; reflexivity).
    unfold analyzeAudio. rewrite (analyzeAudio_fin _ _ _ _ _ Hprobe Hfloor). cbn [fst].
    eexists. split; [reflexivity|]. split; [reflexivity|].
    cbn [AnalysisResult.data]. apply Forall_fmap, Forall_forall. intros k _.
    unfold sample_at.
    destruct (Htool (of_Z k * interval)%float interval)
      as (stdout & g1 & g2 & Hexec & Hrms & Hdb & Hpeak & Hpk).
    pose proof (analyzeSample_levels pow_approx w audioPath _ _ (Math_random w k)
                  stdout Hexec) as H.
    cbv zeta in H. rewrite Hrms, Hpeak, Hdb, Hpk in H. destruct H as [Ha Hp].
    cbn [compose]. rewrite Ha, Hp, amplitude_at_minus_20, peak_at_minus_10.
    split; reflexivity.
Qed.

End Levels.

Lemma pow_table_tenth : approx (pow_table 10 (-1)) (1 # 10) (1 # 1000000).
Proof. eexists. split; [reflexivity|]. vm_compute. discriminate. Defined.

Lemma pow_table_root :
  approx (pow_table 10 (-0.5)) (316227766 # 1000000000) (1 # 1000000).
Proof. eexists. split; [reflexivity|]. vm_compute. discriminate. Defined.

(** The steady track with the stand-in [Math.pow]. *)
Lemma levels_to_linear_witness :
  exists r,
    analyzeAudio pow_table steady_world "/app/temp/123.mp3" = Returns r
    /\ AnalysisResult.samples r = 300%nat
    /\ Forall (fun s => Sample.amplitude s = 0.1%float /\ Sample.peak s = 0.3162%float)
              (AnalysisResult.data r).
Proof.
  apply (levels_to_linear pow_table pow_table_tenth pow_table_root steady_world
           "/app/temp/123.mp3" "30.000000
").
  - reflexivity.
  - reflexivity.
  - intros ss t. exists steady_stats, "-20.000000"%string, "-10.000000"%string.
    repeat split.
Defined.

(** When neither label is in the output both levels are -60 dB, which is
    0.0010 at four decimals for a [Math.pow] accurate to six decimals. *)
Lemma missing_levels_floor (pow_approx : float -> float -> float) w audioPath time duration rnd stdout :
  approx (pow_approx 10 (-3))%float (1 # 1000) (1 # 1000000) ->
  execAsync w (Ffmpeg audioPath time duration) = ExecOk stdout ->
  match_label "RMS level dB: " stdout = None ->
  match_label "Peak level dB: " stdout = None ->
  let s := analyzeSample pow_approx w audioPath time duration rnd in
  toFixed (Math_pow pow_approx 10 (-60 / 20))%float 4 = FxDec false 10 4
  /\ Sample.amplitude s = 0.001%float /\ Sample.peak s = 0.001%float.
Proof.
  intros Hpow Hexec Hrms Hpeak.
  pose proof (analyzeSample_levels pow_approx w audioPath time duration rnd stdout Hexec) as H.
  cbv zeta in *. rewrite Hrms, Hpeak in H. destruct H as [Ha Hp].
  assert (Hfix : toFixed (Math_pow pow_approx 10 (-60 / 20))%float 4 = FxDec false 10 4).
  { change (Math_pow pow_approx 10 (-60 / 20))%float with (pow_approx 10 (-3))%float.
    apply (toFixed4_approx _ _ _ 10 Hpow); Qclosed. }
  rewrite Ha, Hp, Hfix. repeat split.
Qed.

Example missing_levels_floor_empty :
  let s := analyzeSample pow_table (world_printing empty_stats)
             "/app/temp/123.mp3" 0 interval (0.5, 0.25, 0.75)%float in
  toFixed (Math_pow pow_table 10 (-60 / 20)) 4 = FxDec false 10 4
  /\ Sample.amplitude s = 0.001%float /\ Sample.peak s = 0.001%float.
Proof.
  apply (missing_levels_floor pow_table (world_printing empty_stats) _ _ _ _ empty_stats);
    try reflexivity.
  eexists. split; [reflexivity|]. Qclosed.
Qed.

(** C4 at the output [ffmpeg] prints for a silent window: each label is
    followed by [-inf], the expression captures ["-"], [parseFloat]
    makes it [NaN], and the amplitude and the peak are [NaN], where the
    specification has the -60 dB floor and 0.0010. *)
Theorem silent_window_is_nan (pow_approx : float -> float -> float) audioPath time duration rnd :
  let s := analyzeSample pow_approx (world_printing silent_stats)
             audioPath time duration rnd in
  match_label "RMS level dB: " silent_stats = Some "-"%string
  /\ match_label "Peak level dB: " silent_stats = Some "-"%string
  /\ parseFloat "-" = nan
  /\ Sample.amplitude s = nan
  /\ Sample.peak s = nan
  /\ (Sample.amplitude s =? 0.001)%float = false.
Proof.
  cbv zeta.
  pose proof (analyzeSample_levels pow_approx (world_printing silent_stats)
                audioPath time duration rnd silent_stats eq_refl) as H.
  cbv zeta in H. destruct H as [Ha Hp].
  rewrite Ha, Hp. repeat split.
Qed.

(** C8 at a window that peaks 0.5 dB above full scale: the peak is
    [10^0.025] rounded to four decimals, 1.0593, outside [0, 1]. *)
Theorem hot_window_peak_above_one (pow_approx : float -> float -> float) audioPath time duration rnd :
  approx (pow_approx 10 0.025)%float (1059253725 # 1000000000) (1 # 1000000) ->
  let s := analyzeSample pow_approx (world_printing hot_stats)
             audioPath time duration rnd in
  match_label "Peak level dB: " hot_stats = Some "0.500000"%string
  /\ Sample.peak s = 1.0593%float
  /\ (Sample.peak s <=? 1)%float = false.
Proof.
  intros Hpow. cbv zeta.
  pose proof (analyzeSample_levels pow_approx (world_printing hot_stats)
                audioPath time duration rnd hot_stats eq_refl) as H.
  cbv zeta in H. destruct H as [_ Hp].
  assert (Hfix : toFixed (pow_approx 10 0.025)%float 4 = FxDec false 10593 4)
    by (apply (toFixed4_approx _ _ _ 10593 Hpow); Qclosed).
  change (Math_pow pow_approx 10%float _) with (pow_approx 10 0.025)%float in Hp.
  rewrite Hp, Hfix. repeat split.
Qed.

(** The stand-in [Math.pow] is that accurate at [0.025]. *)
Lemma hot_window_peak_above_one_witness :
  let s := analyzeSample pow_table (world_printing hot_stats)
             "/app/temp/123.mp3" 0 interval (0.5, 0.25, 0.75)%float in
  match_label "Peak level dB: " hot_stats = Some "0.500000"%string
  /\ Sample.peak s = 1.0593%float
  /\ (Sample.peak s <=? 1)%float = false.
Proof.
  apply (hot_window_peak_above_one pow_table).
  eexists. split; [reflexivity|]. Qclosed.
Defined.

(* ================================================================== *)
(** ** Binary64 rounding: what [SpecFloat] computes, as bounds *)
(* ================================================================== *)

Module Binary64.

(** Powers with a variable exponent, hidden from [lia]. *)
Ltac hide_pows :=
  repeat match goal with
    | |- context [Z.pow ?a ?b] =>
        let x := fresh "pw" in set (x := Z.pow a b) in *; clearbody x
    | H : context [Z.pow ?a ?b] |- _ =>
        let x := fresh "pw" in set (x := Z.pow a b) in *; clearbody x
    end.

(** The number of binary digits of a mantissa. *)
Lemma digits2_bounds (p : positive) :
  2 ^ (Zpos (digits2_pos p) - 1) <= Zpos p < 2 ^ Zpos (digits2_pos p).
Proof.
  induction p as [p IH|p IH|]; cbn [digits2_pos].
  - rewrite Pos2Z.inj_succ. change (Z.pos p~1) with (2 * Z.pos p + 1).
    replace (Z.succ (Zpos (digits2_pos p)) - 1) with (Z.succ (Zpos (digits2_pos p) - 1)) by lia.
    rewrite !Z.pow_succ_r by lia. hide_pows. lia.
  - rewrite Pos2Z.inj_succ. change (Z.pos p~0) with (2 * Z.pos p).
    replace (Z.succ (Zpos (digits2_pos p)) - 1) with (Z.succ (Zpos (digits2_pos p) - 1)) by lia.
    rewrite !Z.pow_succ_r by lia. hide_pows. lia.
  - cbv. split; [discriminate | reflexivity].
Qed.

Lemma digits2_unique (p : positive) (d : Z) :
  2 ^ (d - 1) <= Zpos p < 2 ^ d -> Zpos (digits2_pos p) = d.
Proof.
  intros [Hlo Hhi]. pose proof (digits2_bounds p) as [Hlo' Hhi'].
  assert (Hd : 0 < d).
  { destruct (Z.lt_ge_cases 0 d) as [|Hneg]; [assumption|].
    assert (2 ^ d <= 1).
    { destruct (Z.eq_dec d 0) as [->|]; [simpl; lia|].
      rewrite Z.pow_neg_r by lia. lia. }
    lia. }
  assert (H1 : d - 1 < Zpos (digits2_pos p)).
  { apply (Z.pow_lt_mono_r_iff 2); lia. }
  assert (H2 : Zpos (digits2_pos p) - 1 < d).
  { apply (Z.pow_lt_mono_r_iff 2); lia. }
  lia.
Qed.

(** Shifting right: the mantissa is divided, whatever the location bits. *)
Lemma shr_1_m (mrs : shr_record) :
  0 <= shr_m mrs -> shr_m (shr_1 mrs) = shr_m mrs / 2.
Proof.
  destruct mrs as [m r s]. cbn [shr_m shr_1]. intros Hm.
  destruct m as [|[p|p|]|p]; cbn [shr_m]; try lia.
  - reflexivity.
  - change (Z.pos p~1) with (2 * Z.pos p + 1). Z.div_mod_to_equations. lia.
  - change (Z.pos p~0) with (2 * Z.pos p). Z.div_mod_to_equations. lia.
  - reflexivity.
Qed.

Lemma iter_shr_1_m (p : positive) (mrs : shr_record) :
  0 <= shr_m mrs ->
  shr_m (SpecFloat.iter_pos shr_1 p mrs) = shr_m mrs / 2 ^ Zpos p.
Proof.
  revert mrs. induction p as [p IH|p IH|]; intros mrs Hm; cbn [SpecFloat.iter_pos].
  - assert (H1 : 0 <= shr_m (shr_1 mrs)) by (rewrite shr_1_m by lia; apply Z.div_pos; lia).
    assert (H2 : 0 <= shr_m (SpecFloat.iter_pos shr_1 p (shr_1 mrs)))
      by (rewrite IH by lia; apply Z.div_pos; lia).
    rewrite IH, IH, shr_1_m by lia.
    rewrite !Z.div_div by lia. f_equal.
    change (Z.pos p~1) with (2 * Z.pos p + 1). replace (2 * Zpos p + 1) with (1 + Zpos p + Zpos p) by lia.
    rewrite !Z.pow_add_r by lia. lia.
  - assert (H2 : 0 <= shr_m (SpecFloat.iter_pos shr_1 p mrs))
      by (rewrite IH by lia; apply Z.div_pos; lia).
    rewrite IH, IH by lia.
    rewrite !Z.div_div by lia. f_equal.
    change (Z.pos p~0) with (2 * Z.pos p). replace (2 * Zpos p) with (Zpos p + Zpos p) by lia.
    rewrite !Z.pow_add_r by lia. lia.
  - rewrite shr_1_m by lia. reflexivity.
Qed.

Lemma shr_m_spec (mrs : shr_record) (e n : Z) :
  0 <= shr_m mrs -> 0 <= n ->
  shr_m (fst (shr mrs e n)) = shr_m mrs / 2 ^ n /\ snd (shr mrs e n) = e + n.
Proof.
  intros Hm Hn. unfold shr. destruct n as [|p|p]; cbn [fst snd].
  - rewrite Z.div_1_r. lia.
  - split; [apply iter_shr_1_m; assumption | reflexivity].
  - lia.
Qed.

Lemma round_nearest_even_cases (m : Z) (l : location) :
  round_nearest_even m l = m \/ round_nearest_even m l = m + 1.
Proof.
  destruct l as [|[]]; cbn [round_nearest_even]; auto.
  destruct (Z.even m); auto.
Qed.

Lemma shr_record_of_loc_m (m : Z) (l : location) : shr_m (shr_record_of_loc m l) = m.
Proof. destruct l as [|[]]; reflexivity. Qed.

Lemma fexp_normal (x : Z) : -1074 <= x - 53 -> fexp prec emax x = x - 53.
Proof.
  intros H. unfold fexp, SpecFloat.emin. change prec with 53. change emax with 1024. lia.
Qed.

(** The last step of [binary_round_aux]: a rounded mantissa of 53 digits
    is kept, and [2^53] is renormalized to [2^52]. *)
Lemma renormalize (s : bool) (p2 : positive) (e1 : Z) :
  2 ^ 52 <= Zpos p2 <= 2 ^ 53 -> -1074 <= e1 <= 970 ->
  exists m e,
    (let '(mrs, e') := shr_fexp prec emax (Zpos p2) e1 loc_Exact in
     match shr_m mrs with
     | Z0 => S754_zero s
     | Zpos m => if Z.leb e' (emax - prec) then S754_finite s m e' else S754_infinity s
     | Zneg _ => S754_nan
     end) = S754_finite s m e
    /\ Zpos (digits2_pos m) = 53
    /\ e1 <= e <= e1 + 1
    /\ Zpos m * 2 ^ (e - e1) = Zpos p2.
Proof.
  intros Hm He. unfold shr_fexp. cbn [Zdigits2 shr_record_of_loc].
  destruct (Z.eq_dec (Zpos p2) (2 ^ 53)) as [Heq|Hne].
  - assert (Hp : p2 = 9007199254740992%positive) by (apply Pos2Z.inj; exact Heq).
    subst p2. change (Zpos (digits2_pos 9007199254740992)) with 54.
    rewrite fexp_normal by lia.
    replace (54 + e1 - 53 - e1) with 1 by lia.
    cbn [shr SpecFloat.iter_pos shr_1 shr_m].
    replace (e1 + 1 <=? emax - prec) with true
      by (symmetry; apply Z.leb_le; change emax with 1024; change prec with 53; lia).
    eexists _, _. split; [reflexivity|]. split; [reflexivity|]. split; [lia|].
    replace (e1 + 1 - e1) with 1 by lia. reflexivity.
  - assert (Hd : Zpos (digits2_pos p2) = 53)
      by (apply digits2_unique; change (53 - 1) with 52; lia).
    rewrite Hd, fexp_normal by lia.
    replace (53 + e1 - 53 - e1) with 0 by lia.
    cbn [shr shr_m].
    replace (e1 <=? emax - prec) with true
      by (symmetry; apply Z.leb_le; change emax with 1024; change prec with 53; lia).
    exists p2, e1. split; [reflexivity|]. split; [assumption|]. split; [lia|].
    rewrite Z.sub_diag. lia.
Qed.

(** [binary_round_aux] on a mantissa [M] of at least 53 digits, in the
    normal range: the result is a normal Number [m * 2^e], equal to
    [W * 2^E] for an integer [W] within [M / 2^52] of [M]. *)
Lemma round_aux_normal (s : bool) (M : positive) (E : Z) (l : location) :
  53 <= Zpos (digits2_pos M) ->
  -1074 <= Zpos (digits2_pos M) + E - 53 ->
  Zpos (digits2_pos M) + E <= 1023 ->
  exists m e W,
    binary_round_aux prec emax s (Zpos M) E l = S754_finite s m e
    /\ Zpos (digits2_pos m) = 53
    /\ -1074 <= e <= 971
    /\ E <= e
    /\ Zpos m * 2 ^ (e - E) = W
    /\ 2 ^ 52 * Z.abs (W - Zpos M) <= Zpos M.
Proof.
  intros Hd Hlo Hhi. pose proof (digits2_bounds M) as HM.
  set (d := Zpos (digits2_pos M)) in *.
  set (n := d - 53).
  unfold binary_round_aux, shr_fexp at 1. cbn [Zdigits2]. fold d.
  rewrite fexp_normal by lia. replace (d + E - 53 - E) with n by (unfold n; lia).
  destruct (shr_m_spec (shr_record_of_loc (Zpos M) l) E n) as [Hm1 He1].
  { rewrite shr_record_of_loc_m. lia. }
  { unfold n. lia. }
  rewrite shr_record_of_loc_m in Hm1.
  destruct (shr (shr_record_of_loc (Zpos M) l) E n) as [mrs1 e1].
  cbn [fst snd] in Hm1, He1. subst e1.
  assert (Hpn : 0 < 2 ^ n) by (apply Z.pow_pos_nonneg; unfold n; lia).
  assert (Hsplit : 2 ^ (d - 1) = 2 ^ n * 2 ^ 52).
  { rewrite <- Z.pow_add_r by (unfold n; lia). f_equal. unfold n. lia. }
  assert (Hsplit' : 2 ^ d = 2 ^ n * 2 ^ 53).
  { rewrite <- Z.pow_add_r by (unfold n; lia). f_equal. unfold n. lia. }
  assert (Hq : 2 ^ 52 <= shr_m mrs1 < 2 ^ 53).
  { rewrite Hm1. split.
    - apply Z.div_le_lower_bound; [assumption|]. rewrite <- Hsplit. lia.
    - apply Z.div_lt_upper_bound; [assumption|]. rewrite <- Hsplit'. lia. }
  assert (Hdiv : 2 ^ n * shr_m mrs1 <= Zpos M < 2 ^ n * (shr_m mrs1 + 1)).
  { rewrite Hm1. pose proof (Z.mul_div_le (Zpos M) (2 ^ n) Hpn).
    pose proof (Z.mul_succ_div_gt (Zpos M) (2 ^ n) Hpn). lia. }
  set (m2 := round_nearest_even (shr_m mrs1) (loc_of_shr_record mrs1)).
  assert (Hm2 : m2 = shr_m mrs1 \/ m2 = shr_m mrs1 + 1) by apply round_nearest_even_cases.
  change (2 ^ 52) with 4503599627370496 in *.
  change (2 ^ 53) with 9007199254740992 in *.
  destruct m2 as [|p2|p2] eqn:Hp2; [lia| |lia].
  destruct (renormalize s p2 (E + n)) as (m & e & Hres & Hdm & He & Hval).
  { change (2 ^ 52) with 4503599627370496. change (2 ^ 53) with 9007199254740992. lia. }
  { unfold n. lia. }
  exists m, e, (Zpos p2 * 2 ^ n). split; [exact Hres|]. split; [exact Hdm|].
  split; [unfold n in *; lia|]. split; [unfold n in *; lia|]. split.
  - rewrite <- Hval. replace (e - E) with (e - (E + n) + n) by lia.
    rewrite Z.pow_add_r by (unfold n in *; lia). ring.
  - rewrite Hsplit in HM. hide_pows. nia.
Qed.

(** A canonical mantissa with nothing to round off is kept as it is. *)
Lemma round_aux_exact (s : bool) (M : positive) (E : Z) :
  Zpos (digits2_pos M) = 53 -> -1074 <= E <= 970 ->
  binary_round_aux prec emax s (Zpos M) E loc_Exact = S754_finite s M E.
Proof.
  intros Hd He. unfold binary_round_aux, shr_fexp. cbn [Zdigits2].
  rewrite Hd, fexp_normal by lia.
  replace (53 + E - 53 - E) with 0 by lia.
  cbn [shr shr_record_of_loc shr_m loc_of_shr_record round_nearest_even Zdigits2].
  rewrite Hd, fexp_normal by lia.
  replace (53 + E - 53 - E) with 0 by lia.
  cbn [shr shr_record_of_loc shr_m].
  replace (E <=? emax - prec) with true
    by (symmetry; apply Z.leb_le; change emax with 1024; change prec with 53; lia).
  reflexivity.
Qed.

(** A positive integer below [2^53] is a Number: [m * 2^e] with [e <= 0]. *)
Lemma normalize_int (p : positive) :
  Zpos p < 2 ^ 53 ->
  exists m e,
    binary_normalize prec emax (Zpos p) 0 false = S754_finite false m e
    /\ Zpos (digits2_pos m) = 53
    /\ -52 <= e <= 0
    /\ Zpos m = Zpos p * 2 ^ (- e).
Proof.
  intros Hp. pose proof (digits2_bounds p) as Hb.
  assert (Hd : 1 <= Zpos (digits2_pos p) <= 53).
  { split; [lia|]. destruct (Z.le_gt_cases (Zpos (digits2_pos p)) 53) as [|Hgt]; [assumption|].
    assert (2 ^ 53 <= 2 ^ (Zpos (digits2_pos p) - 1)) by (apply Z.pow_le_mono_r; lia).
    lia. }
  cbn [binary_normalize]. unfold binary_round, shl_align.
  rewrite Z.add_0_r, fexp_normal by lia.
  destruct (Zpos (digits2_pos p) - 53 - 0) as [|k|k] eqn:Hk; [|lia|].
  - assert (Hd53 : Zpos (digits2_pos p) = 53) by lia.
    rewrite round_aux_exact by lia.
    exists p, 0. split; [reflexivity|]. split; [assumption|]. split; [lia|].
    change (2 ^ (- 0)) with 1. lia.
  - fold (shift_pos k p).
    assert (Hval : Zpos (shift_pos k p) = Zpos p * 2 ^ Zpos k).
    { rewrite shift_pos_correct, Z.pow_pos_fold. ring. }
    assert (Hdm : Zpos (digits2_pos (shift_pos k p)) = 53).
    { apply digits2_unique. rewrite Hval.
      assert (E1 : 2 ^ (53 - 1) = 2 ^ (Zpos (digits2_pos p) - 1) * 2 ^ Zpos k)
        by (rewrite <- Z.pow_add_r by lia; f_equal; lia).
      assert (E2 : 2 ^ 53 = 2 ^ Zpos (digits2_pos p) * 2 ^ Zpos k)
        by (rewrite <- Z.pow_add_r by lia; f_equal; lia).
      rewrite E1, E2.
      assert (0 < 2 ^ Zpos k) by (apply Z.pow_pos_nonneg; lia).
      clear E1 E2 Hp. hide_pows. nia. }
    rewrite round_aux_exact by lia.
    exists (shift_pos k p), (Zpos (digits2_pos p) - 53).
    split; [reflexivity|]. split; [assumption|]. split; [lia|].
    rewrite Hval. f_equal. f_equal. lia.
Qed.

(** The product of two normal Numbers, in the normal range. *)
Lemma mul_normal (m1 m2 : positive) (e1 e2 : Z) :
  Zpos (digits2_pos m1) = 53 -> Zpos (digits2_pos m2) = 53 ->
  -1126 <= e1 + e2 -> e1 + e2 <= 917 ->
  exists m e W,
    SFmul prec emax (S754_finite false m1 e1) (S754_finite false m2 e2)
    = S754_finite false m e
    /\ Zpos (digits2_pos m) = 53
    /\ -1074 <= e <= 971
    /\ e1 + e2 <= e
    /\ Zpos m * 2 ^ (e - (e1 + e2)) = W
    /\ 2 ^ 52 * Z.abs (W - Zpos m1 * Zpos m2) <= Zpos m1 * Zpos m2.
Proof.
  intros Hd1 Hd2 Hlo Hhi. cbn [SFmul xorb].
  pose proof (digits2_bounds m1) as H1. pose proof (digits2_bounds m2) as H2.
  pose proof (digits2_bounds (m1 * m2)) as H12.
  rewrite Hd1 in H1. rewrite Hd2 in H2. rewrite Pos2Z.inj_mul in H12.
  change (2 ^ (53 - 1)) with 4503599627370496 in *.
  change (2 ^ 53) with 9007199254740992 in *.
  assert (Hd : 105 <= Zpos (digits2_pos (m1 * m2)) <= 106).
  { split.
    - destruct (Z.le_gt_cases 105 (Zpos (digits2_pos (m1 * m2)))) as [|Hlt]; [assumption|].
      assert (2 ^ Zpos (digits2_pos (m1 * m2)) <= 2 ^ 104) by (apply Z.pow_le_mono_r; lia).
      change (2 ^ 104) with 20282409603651670423947251286016 in *. nia.
    - destruct (Z.le_gt_cases (Zpos (digits2_pos (m1 * m2))) 106) as [|Hgt]; [assumption|].
      assert (2 ^ 106 <= 2 ^ (Zpos (digits2_pos (m1 * m2)) - 1)) by (apply Z.pow_le_mono_r; lia).
      change (2 ^ 106) with 81129638414606681695789005144064 in *. nia. }
  destruct (round_aux_normal false (m1 * m2) (e1 + e2) loc_Exact)
    as (m & e & W & Hres & Hdm & He & HE & HW & Herr); try lia.
  exists m, e, W. rewrite Pos2Z.inj_mul in Herr. repeat split; try assumption; lia.
Qed.

(** *** From scaled integers to rationals *)

Lemma Qpow2_add (a b : Z) : (2 ^ (a + b) == 2 ^ a * 2 ^ b)%Q.
Proof. apply Qpower_plus. discriminate. Qed.

Lemma inject_pow2 (n : Z) : 0 <= n -> (inject_Z (2 ^ n) == 2 ^ n)%Q.
Proof. intros Hn. apply (Zpower_Qpower 2 n Hn). Qed.

Lemma scaled_eq (m e E W : Z) :
  E <= e -> m * 2 ^ (e - E) = W ->
  (inject_Z m * 2 ^ e == inject_Z W * 2 ^ E)%Q.
Proof.
  intros HE <-. rewrite inject_Z_mult, inject_pow2 by lia.
  rewrite <- Qmult_assoc, <- Qpow2_add. replace (e - E + E) with e by lia. reflexivity.
Qed.

(** An integer within [M / c] of [M], scaled: a relative error of at
    most [1 / c]. *)
Lemma rel_error (c : positive) (W M E : Z) :
  Zpos c * Z.abs (W - M) <= M ->
  let P := (inject_Z M * 2 ^ E)%Q in
  let q := (inject_Z W * 2 ^ E)%Q in
  (P - P * (1 # c) <= q /\ q <= P + P * (1 # c))%Q.
Proof.
  intros Herr P q. subst P q.
  assert (H1 : Zpos c * (W - M) <= M) by lia.
  assert (H2 : Zpos c * (M - W) <= M) by lia.
  unfold Z.sub in H1, H2.
  rewrite Zle_Qle, inject_Z_mult, inject_Z_plus, inject_Z_opp in H1, H2.
  pose proof (Qpower_2_pos E) as Ht.
  set (w := inject_Z W) in *. set (m := inject_Z M) in *. set (t := (2 ^ E)%Q) in *.
  assert (Hk : (inject_Z (Zpos c) * (1 # c) == 1)%Q).
  { unfold Qeq, Qmult, inject_Z. simpl. lia. }
  assert (Hk0 : (0 <= 1 # c)%Q) by (unfold Qle; simpl; lia).
  set (C := inject_Z (Zpos c)) in *. set (k := (1 # c)%Q) in *.
  assert (H1' : (w - m <= m * k)%Q).
  { apply (Qmult_le_compat_r _ _ k) in H1; [|exact Hk0].
    assert (Heq : (C * (w + - m) * k == (C * k) * (w - m))%Q) by ring.
    rewrite Heq, Hk in H1. lra. }
  assert (H2' : (m - w <= m * k)%Q).
  { apply (Qmult_le_compat_r _ _ k) in H2; [|exact Hk0].
    assert (Heq : (C * (m + - w) * k == (C * k) * (m - w))%Q) by ring.
    rewrite Heq, Hk in H2. lra. }
  split.
  - assert (H : (0 <= (w - m + m * k) * t)%Q) by (apply Qmult_le_0_compat; lra).
    lra.
  - assert (H : (0 <= (m - w + m * k) * t)%Q) by (apply Qmult_le_0_compat; lra).
    lra.
Qed.

(** *** The time of a window *)

Lemma Prim2SF_of_Z (p : positive) :
  Zpos p < 2 ^ 53 ->
  exists m e,
    Prim2SF (of_Z (Zpos p)) = S754_finite false m e
    /\ Zpos (digits2_pos m) = 53
    /\ -52 <= e <= 0
    /\ Zpos m = Zpos p * 2 ^ (- e).
Proof.
  intros Hp. unfold of_Z. rewrite of_uint63_spec, Uint63.of_Z_spec.
  rewrite Z.mod_small.
  - apply normalize_int. assumption.
  - change Uint63Axioms.wB with 9223372036854775808.
    change (2 ^ 53) with 9007199254740992 in Hp. lia.
Qed.

(** [i * 0.1] in binary64, for a window index below [2^32]: within a
    relative [2^-52] of the product of [i] and the Number [0.1]. *)
Lemma window_time_value (i : Z) :
  1 <= i < 2 ^ 32 ->
  exists q,
    value (of_Z i * interval) = Some q
    /\ let P := (inject_Z i * (7205759403792794 # 72057594037927936))%Q in
       (P - P * (1 # 4503599627370496) <= q /\ q <= P + P * (1 # 4503599627370496))%Q.
Proof.
  intros Hi. destruct i as [|p|p]; try lia.
  destruct (Prim2SF_of_Z p) as (mi & ei & Hsf & Hdi & Hei & Hmi).
  { change (2 ^ 32) with 4294967296 in Hi. change (2 ^ 53) with 9007199254740992. lia. }
  destruct (mul_normal mi 7205759403792794 ei (-56))
    as (m & e & W & Hmul & Hdm & He & HE & HW & Herr); [assumption|reflexivity|lia|lia|].
  unfold value. rewrite mul_spec. unfold SF64mul. rewrite Hsf.
  change (Prim2SF interval) with (S754_finite false 7205759403792794 (-56)).
  rewrite Hmul. cbn [cond_Zopp]. eexists. split; [reflexivity|].
  pose proof (rel_error 4503599627370496 W (Zpos mi * 7205759403792794) (ei + -56) Herr) as Hrel.
  cbv zeta in *.
  rewrite (scaled_eq (Zpos m) e (ei + -56) W HE HW).
  assert (HP : (inject_Z (Zpos mi * 7205759403792794) * 2 ^ (ei + -56)
                == inject_Z (Zpos p) * (7205759403792794 # 72057594037927936))%Q).
  { rewrite Hmi, !inject_Z_mult, inject_pow2 by lia.
    rewrite Qpow2_add.
    assert (Hinv : (2 ^ (- ei) * 2 ^ ei == 1)%Q).
    { rewrite <- Qpow2_add. replace (- ei + ei) with 0 by lia. reflexivity. }
    change (2 ^ (-56))%Q with (1 # 72057594037927936)%Q.
    change (inject_Z 7205759403792794) with (7205759403792794 # 1)%Q.
    set (a := (2 ^ (- ei))%Q) in *. set (b := (2 ^ ei)%Q) in *.
    transitivity (inject_Z (Zpos p) * (a * b) * ((7205759403792794 # 1) * (1 # 72057594037927936)))%Q;
      [ring|]. rewrite Hinv. ring. }
  rewrite HP in Hrel. exact Hrel.
Qed.

(** [toFixed(2)] of the time of window [i] prints [i / 10] exactly: the
    digits of [10 * i] with the point before the last two. *)
Lemma window_time_toFixed (i : Z) :
  0 <= i < 2 ^ 32 ->
  toFixed (of_Z i * interval) 2 = FxDec false (10 * i) 2.
Proof.
  intros Hi. destruct (Z.eq_dec i 0) as [->|Hne]; [reflexivity|].
  destruct (window_time_value i) as (q & Hv & Hlo & Hhi); [lia|].
  change (2 ^ 32) with 4294967296 in Hi.
  assert (H1 : (inject_Z 1 <= inject_Z i)%Q) by (rewrite <- Zle_Qle; lia).
  assert (H2 : (inject_Z i <= inject_Z 4294967296)%Q) by (rewrite <- Zle_Qle; lia).
  change (inject_Z 1) with 1%Q in H1. change (inject_Z 4294967296) with (4294967296 # 1)%Q in H2.
  set (x := inject_Z i) in *.
  apply (toFixed_round _ 2 q (10 * i) Hv).
  - lra.
  - change (inject_Z (10 ^ 21)) with (1000000000000000000000 # 1)%Q. lra.
  - rewrite inject_Z_mult. fold x. change (inject_Z 10) with 10%Q.
    change (inject_Z (10 ^ Z.of_nat 2)) with 100%Q. lra.
  - rewrite inject_Z_mult. fold x. change (inject_Z 10) with 10%Q.
    change (inject_Z (10 ^ Z.of_nat 2)) with 100%Q. lra.
Qed.

(** *** Reading back a decimal with two fraction digits *)

Lemma digits_le_53 (n : positive) : Zpos n < 2 ^ 53 -> Zpos (digits2_pos n) <= 53.
Proof.
  intros Hn. pose proof (digits2_bounds n) as Hb.
  destruct (Z.le_gt_cases (Zpos (digits2_pos n)) 53) as [|Hgt]; [assumption|].
  assert (2 ^ 53 <= 2 ^ (Zpos (digits2_pos n) - 1)) by (apply Z.pow_le_mono_r; lia).
  lia.
Qed.

(** The quotient [SFdiv] rounds when [n] is divided by [100]. *)
Lemma div_core_100 (n : positive) :
  Zpos n < 2 ^ 53 ->
  exists q l,
    SFdiv_core_binary prec emax (Zpos n) 0 100 0
    = (Zpos q, Zpos (digits2_pos n) - 60, l)
    /\ 100 * Zpos q <= Zpos n * 2 ^ (60 - Zpos (digits2_pos n)) < 100 * (Zpos q + 1)
    /\ 53 <= Zpos (digits2_pos q) <= 54.
Proof.
  intros Hn. pose proof (digits_le_53 n Hn) as Hd. pose proof (digits2_bounds n) as Hb.
  set (d := Zpos (digits2_pos n)) in *.
  unfold SFdiv_core_binary. cbn [Zdigits2]. fold d.
  change (Zpos (digits2_pos 100)) with 7.
  replace (d + 0 - (7 + 0)) with (d - 7) by lia.
  rewrite fexp_normal by lia. change (0 - 0) with 0.
  rewrite Z.min_l by lia. replace (0 - (d - 7 - 53)) with (60 - d) by lia.
  replace (d - 7 - 53) with (d - 60) by lia.
  destruct (60 - d) as [|s|s] eqn:Hs; try lia.
  rewrite Z.shiftl_mul_pow2 by lia.
  assert (Hm' : 2 ^ 59 <= Zpos n * 2 ^ Zpos s < 2 ^ 60).
  { assert (E1 : 2 ^ 59 = 2 ^ (d - 1) * 2 ^ Zpos s)
      by (rewrite <- Z.pow_add_r by lia; f_equal; lia).
    assert (E2 : 2 ^ 60 = 2 ^ d * 2 ^ Zpos s)
      by (rewrite <- Z.pow_add_r by lia; f_equal; lia).
    rewrite E1, E2. assert (0 < 2 ^ Zpos s) by (apply Z.pow_pos_nonneg; lia).
    clear E1 E2 Hn. hide_pows. nia. }
  change (2 ^ 59) with 576460752303423488 in Hm'.
  change (2 ^ 60) with 1152921504606846976 in Hm'.
  set (a := Zpos n * 2 ^ Zpos s) in *.
  pose proof (Z_div_mod a 100 eq_refl) as Hdiv.
  destruct (Z.div_eucl a 100) as [q r]. destruct Hdiv as [Ha Hr].
  destruct q as [|q|q]; try lia.
  exists q, (new_location 100 r). split; [reflexivity|]. split; [lia|].
  pose proof (digits2_bounds q) as Hq. split.
  - destruct (Z.le_gt_cases 53 (Zpos (digits2_pos q))) as [|Hlt]; [assumption|].
    assert (2 ^ Zpos (digits2_pos q) <= 2 ^ 52) by (apply Z.pow_le_mono_r; lia).
    change (2 ^ 52) with 4503599627370496 in *. lia.
  - destruct (Z.le_gt_cases (Zpos (digits2_pos q)) 54) as [|Hgt]; [assumption|].
    assert (2 ^ 54 <= 2 ^ (Zpos (digits2_pos q) - 1)) by (apply Z.pow_le_mono_r; lia).
    change (2 ^ 54) with 18014398509481984 in *. lia.
Qed.

(** [n / 100] read as a Number, for [n < 2^53]: a normal Number within a
    relative [2^-51] of [n / 100]. *)
Lemma div100_normal (n : positive) :
  Zpos n < 2 ^ 53 ->
  exists m e,
    SFdiv prec emax (S754_finite false n 0) (S754_finite false 100 0)
    = S754_finite false m e
    /\ Zpos (digits2_pos m) = 53
    /\ -1074 <= e <= 971
    /\ let T := (inject_Z (Zpos n) * (1 # 100))%Q in
       (T - T * (1 # 2251799813685248) <= inject_Z (Zpos m) * 2 ^ e
        /\ inject_Z (Zpos m) * 2 ^ e <= T + T * (1 # 2251799813685248))%Q.
Proof.
  intros Hn. pose proof (digits_le_53 n Hn) as Hd.
  destruct (div_core_100 n Hn) as (q & l & Hcore & Hq & Hdq).
  set (d := Zpos (digits2_pos n)) in *.
  cbn [SFdiv xorb]. rewrite Hcore.
  destruct (round_aux_normal false q (d - 60) l)
    as (m & e & W & Hres & Hdm & He & HE & HW & Herr); try lia.
  exists m, e. split; [exact Hres|]. split; [exact Hdm|]. split; [exact He|].
  cbv zeta. rewrite (scaled_eq (Zpos m) e (d - 60) W HE HW).
  pose proof (digits2_bounds q) as Hqb.
  assert (Hq52 : 2 ^ 52 <= Zpos q).
  { etransitivity; [|apply Hqb]. apply Z.pow_le_mono_r; lia. }
  change (2 ^ 52) with 4503599627370496 in *.
  set (a := Zpos n * 2 ^ (60 - d)) in *.
  assert (Hz : 2251799813685248 * Z.abs (100 * W - a) <= a) by lia.
  pose proof (rel_error 2251799813685248 (100 * W) a (d - 60) Hz) as Hrel.
  cbv zeta in Hrel.
  assert (HT : (inject_Z a * 2 ^ (d - 60) == inject_Z (Zpos n))%Q).
  { unfold a. rewrite inject_Z_mult, inject_pow2 by lia.
    rewrite <- Qmult_assoc, <- Qpow2_add. replace (60 - d + (d - 60)) with 0 by lia.
    change (2 ^ 0)%Q with 1%Q. ring. }
  rewrite HT in Hrel. rewrite inject_Z_mult in Hrel.
  change (inject_Z 100) with (100 # 1)%Q in Hrel.
  set (v := (inject_Z W * 2 ^ (d - 60))%Q) in *.
  assert (Hv : ((100 # 1) * inject_Z W * 2 ^ (d - 60) == (100 # 1) * v)%Q) by (unfold v; ring).
  rewrite Hv in Hrel. lra.
Qed.

Lemma valid_normal (s : bool) (m : positive) (e : Z) :
  Zpos (digits2_pos m) = 53 -> -1074 <= e <= 971 ->
  valid_binary (S754_finite s m e) = true.
Proof.
  intros Hd He. unfold SpecFloat.valid_binary, bounded, canonical_mantissa.
  rewrite Hd, fexp_normal by lia. replace (53 + e - 53) with e by lia.
  rewrite Z.eqb_refl. apply Z.leb_le. change emax with 1024. change prec with 53. lia.
Qed.

(** [<] on two positive normal Numbers, from their values. *)
Lemma SFltb_normal (m1 m2 : positive) (e1 e2 : Z) :
  Zpos (digits2_pos m1) = 53 -> Zpos (digits2_pos m2) = 53 ->
  (inject_Z (Zpos m1) * 2 ^ e1 < inject_Z (Zpos m2) * 2 ^ e2)%Q ->
  SFltb (S754_finite false m1 e1) (S754_finite false m2 e2) = true.
Proof.
  intros Hd1 Hd2 Hlt. unfold SFltb, SFcompare.
  pose proof (digits2_bounds m1) as H1. pose proof (digits2_bounds m2) as H2.
  rewrite Hd1 in H1. rewrite Hd2 in H2.
  change (2 ^ (53 - 1)) with 4503599627370496 in *.
  change (2 ^ 53) with 9007199254740992 in *.
  destruct (Z.compare_spec e1 e2) as [Heq|He|He].
  - subst e2. apply Qmult_lt_r in Hlt; [|apply Qpower_2_pos].
    rewrite <- Zlt_Qlt in Hlt.
    change (match Pos.compare m1 m2 with Lt => true | _ => false end = true).
    rewrite (proj2 (Pos.compare_lt_iff m1 m2)) by lia. reflexivity.
  - reflexivity.
  - exfalso.
    rewrite (scaled_eq (Zpos m1) e1 e2 _ ltac:(lia) eq_refl) in Hlt.
    apply Qmult_lt_r in Hlt; [|apply Qpower_2_pos].
    rewrite <- Zlt_Qlt in Hlt.
    assert (2 ^ 1 <= 2 ^ (e1 - e2)) by (apply Z.pow_le_mono_r; lia).
    change (2 ^ 1) with 2 in *. hide_pows. nia.
Qed.

(** The Number read back from the digits [toFixed(2)] prints for
    window [i]. *)
Lemma window_time_read (i : Z) :
  1 <= i < 2 ^ 32 ->
  exists m e,
    of_decimal false (10 * i) (-2) = SF2Prim (S754_finite false m e)
    /\ Zpos (digits2_pos m) = 53
    /\ -1074 <= e <= 971
    /\ let T := (inject_Z i * (1 # 10))%Q in
       (T - T * (1 # 2251799813685248) <= inject_Z (Zpos m) * 2 ^ e
        /\ inject_Z (Zpos m) * 2 ^ e <= T + T * (1 # 2251799813685248))%Q.
Proof.
  intros Hi. change (2 ^ 32) with 4294967296 in Hi.
  destruct (10 * i) as [|n|n] eqn:Hn; try lia.
  destruct (div100_normal n) as (m & e & Hdiv & Hdm & He & Hlo & Hhi).
  { change (2 ^ 53) with 9007199254740992. lia. }
  exists m, e. split.
  { unfold of_decimal. change (0 <=? -2) with false. cbv iota.
    change (Z.to_pos (10 ^ (- -2))) with 100%positive. rewrite Hdiv. reflexivity. }
  split; [exact Hdm|]. split; [exact He|]. cbv zeta.
  assert (HT : (inject_Z (Zpos n) * (1 # 100) == inject_Z i * (1 # 10))%Q).
  { rewrite <- Hn, inject_Z_mult. change (inject_Z 10) with (10 # 1)%Q. field. }
  rewrite HT in Hlo, Hhi. split; assumption.
Qed.

(** The times of two windows, read back, compare as their indices. *)
Lemma window_times_increase (i j : Z) :
  0 <= i -> i < j -> j < 2 ^ 32 ->
  (of_decimal false (10 * i) (-2) <? of_decimal false (10 * j) (-2))%float = true.
Proof.
  intros Hi Hij Hj.
  destruct (window_time_read j) as (mj & ej & Hrj & Hdj & Hej & Hloj & Hhij); [lia|].
  rewrite ltb_spec, Hrj, (Prim2SF_SF2Prim _ (valid_normal false mj ej Hdj Hej)).
  destruct (Z.eq_dec i 0) as [->|Hne]; [reflexivity|].
  destruct (window_time_read i) as (mi & ei & Hri & Hdi & Hei & Hloi & Hhii); [lia|].
  rewrite Hri, (Prim2SF_SF2Prim _ (valid_normal false mi ei Hdi Hei)).
  apply SFltb_normal; [assumption..|].
  change (2 ^ 32) with 4294967296 in Hj.
  assert (H1 : (inject_Z 1 <= inject_Z i)%Q) by (rewrite <- Zle_Qle; lia).
  assert (H2 : (inject_Z i + inject_Z 1 <= inject_Z j)%Q)
    by (rewrite <- inject_Z_plus, <- Zle_Qle; lia).
  assert (H3 : (inject_Z j <= inject_Z 4294967296)%Q) by (rewrite <- Zle_Qle; lia).
  change (inject_Z 1) with 1%Q in *.
  change (inject_Z 4294967296) with (4294967296 # 1)%Q in H3.
  set (x := inject_Z i) in *. set (y := inject_Z j) in *.
  eapply Qle_lt_trans; [exact Hhii|]. eapply Qlt_le_trans; [|exact Hloj]. lra.
Qed.

End Binary64.

(* ================================================================== *)
(** ** Times in emission order (C2) *)
(* ================================================================== *)

(** C2: in the result of [analyzeAudio] the entry at position [i] has
    the time [i * 0.1] rounded to two decimals by [toFixed], which
    prints [i / 10] exactly, and the times are strictly increasing in
    the order of [data].  [N < 2^32] holds of every result: an array
    has fewer than [2^32] elements. *)
Theorem sample_times_increase pow_approx w audioPath out N :
  execAsync w (Ffprobe audioPath) = ExecOk out ->
  Math_floor (parseFloat (trim out) / interval) = IntFin N ->
  N < 2 ^ 32 ->
  exists r,
    analyzeAudio pow_approx w audioPath = Returns r
    /\ (forall i, 0 <= i < N ->
          exists s, AnalysisResult.data r !! Z.to_nat i = Some s
                    /\ Sample.time s = parseFloat_fixed (toFixed (of_Z i * interval) 2)
                    /\ toFixed (of_Z i * interval) 2 = FxDec false (10 * i) 2
                    /\ Sample.time s = of_decimal false (10 * i) (-2))
    /\ (forall (i j : nat) s t,
          (i < j)%nat ->
          AnalysisResult.data r !! i = Some s ->
          AnalysisResult.data r !! j = Some t ->
          (Sample.time s <? Sample.time t)%float = true).
Proof.
  intros Hprobe Hfloor HN. unfold analyzeAudio.
  rewrite (analyzeAudio_fin _ _ _ _ _ Hprobe Hfloor). cbn [fst].
  eexists. split; [reflexivity|]. cbn [AnalysisResult.data].
  assert (Htime : forall k, 0 <= k < N ->
            Sample.time (sample_at pow_approx w audioPath k)
            = of_decimal false (10 * k) (-2)).
  { intros k Hk. unfold sample_at. rewrite analyzeSample_time.
    rewrite Binary64.window_time_toFixed by lia. reflexivity. }
  split.
  - intros i Hi. exists (sample_at pow_approx w audioPath i).
    rewrite list_lookup_fmap, lookup_seqZ_lt by lia.
    rewrite Z2Nat.id, Z.add_0_l by lia. split; [reflexivity|].
    split; [apply analyzeSample_time|].
    split; [apply Binary64.window_time_toFixed; lia|]. apply Htime. assumption.
  - intros i j s t Hij Hs Ht.
    rewrite list_lookup_fmap in Hs, Ht.
    destruct (seqZ 0 N !! i) as [a|] eqn:Ha; [|discriminate].
    destruct (seqZ 0 N !! j) as [b|] eqn:Hb; [|discriminate].
    apply lookup_seqZ in Ha, Hb. destruct Ha as [-> Hai]. destruct Hb as [-> Hbj].
    injection Hs as <-. injection Ht as <-.
    rewrite !Htime by lia. apply Binary64.window_times_increase; lia.
Qed.

(** The three hundred times of the steady track. *)
Lemma sample_times_increase_witness :
  exists r,
    analyzeAudio pow_table steady_world "/app/temp/123.mp3" = Returns r
    /\ (forall i, 0 <= i < 300 ->
          exists s, AnalysisResult.data r !! Z.to_nat i = Some s
                    /\ Sample.time s = parseFloat_fixed (toFixed (of_Z i * interval) 2)
                    /\ toFixed (of_Z i * interval) 2 = FxDec false (10 * i) 2
                    /\ Sample.time s = of_decimal false (10 * i) (-2))
    /\ (forall (i j : nat) s t,
          (i < j)%nat ->
          AnalysisResult.data r !! i = Some s ->
          AnalysisResult.data r !! j = Some t ->
          (Sample.time s <? Sample.time t)%float = true).
Proof.
  apply (sample_times_increase pow_table steady_world "/app/temp/123.mp3"
           "30.000000
" 300); reflexivity.
Defined.

(* ================================================================== *)
(** ** The [Map] and [GET /api/cache] *)
(* ================================================================== *)

Section MapFacts.

Implicit Types (m : JSMap.t) (k : string) (v : AnalysisResult.t).

Lemma JSMap_get_to_gmap m k : JSMap.to_gmap m !! k = JSMap.get k m.
Proof.
  unfold JSMap.to_gmap. induction m as [|[k' v'] m IH]; [reflexivity|].
  cbn [list_to_map foldr JSMap.get fst snd uncurry]. destruct (String.eqb_spec k k') as [->|Hne].
  - apply lookup_insert_eq.
  - rewrite lookup_insert_ne by (cbn; congruence). exact IH.
Qed.

Lemma JSMap_set_to_gmap m k v :
  JSMap.to_gmap (JSMap.set k v m) = <[k := v]> (JSMap.to_gmap m).
Proof.
  unfold JSMap.to_gmap. induction m as [|[k' v'] m IH]; [reflexivity|].
  cbn [JSMap.set]. destruct (String.eqb_spec k k') as [->|Hne];
    cbn [list_to_map foldr fst snd].
  - rewrite insert_insert_eq. reflexivity.
  - fold (list_to_map (M := gmap string AnalysisResult.t) (JSMap.set k v m)).
    fold (list_to_map (M := gmap string AnalysisResult.t) m).
    rewrite IH. apply insert_insert_ne. cbn. congruence.
Qed.

Lemma JSMap_has_keys m k : JSMap.has k m = true <-> k ∈ JSMap.keys m.
Proof.
  unfold JSMap.has, JSMap.keys. induction m as [|[k' v'] m IH]; cbn [JSMap.get].
  - rewrite fmap_nil, elem_of_nil. split; [discriminate|intros []].
  - rewrite fmap_cons, elem_of_cons. cbn [fst].
    destruct (String.eqb_spec k k') as [->|Hne].
    + split; auto.
    + rewrite IH. split; [auto|]. intros [Heq|Hin]; [congruence|assumption].
Qed.

Lemma JSMap_keys_set m k v :
  JSMap.keys (JSMap.set k v m)
  = if JSMap.has k m then JSMap.keys m else JSMap.keys m ++ [k].
Proof.
  unfold JSMap.has, JSMap.keys. induction m as [|[k' v'] m IH]; [reflexivity|].
  cbn [JSMap.set JSMap.get]. destruct (String.eqb_spec k k') as [->|Hne].
  - reflexivity.
  - rewrite !fmap_cons, IH. cbn [fst]. destruct (JSMap.get k m); reflexivity.
Qed.

Lemma JSMap_get_set m k k' v :
  JSMap.get k' (JSMap.set k v m) = if String.eqb k' k then Some v else JSMap.get k' m.
Proof.
  rewrite <- !JSMap_get_to_gmap, JSMap_set_to_gmap.
  destruct (String.eqb_spec k' k) as [->|Hne].
  - apply lookup_insert_eq.
  - apply lookup_insert_ne. congruence.
Qed.

Lemma JSMap_NoDup_set m k v :
  NoDup (JSMap.keys m) -> NoDup (JSMap.keys (JSMap.set k v m)).
Proof.
  intros Hnd. rewrite JSMap_keys_set. destruct (JSMap.has k m) eqn:Hhas; [assumption|].
  apply NoDup_app. split; [assumption|]. split.
  - intros x Hx Hx'. apply list_elem_of_singleton in Hx'.
    subst x. apply JSMap_has_keys in Hx. congruence.
  - apply NoDup_singleton.
Qed.

End MapFacts.

Section RouteFacts.

Variable pow_approx : float -> float -> float.

(** The route on the [Map] is the handler on its entries. *)
Lemma analyze_route_handler w assetId (cache : JSMap.t) :
  analyze_handler pow_approx w assetId (JSMap.to_gmap cache)
  = (fst (analyze_route pow_approx w assetId cache),
     JSMap.to_gmap (snd (analyze_route pow_approx w assetId cache))).
Proof.
  unfold analyze_handler, analyze_route, JSMap.has.
  rewrite JSMap_get_to_gmap.
  destruct (JSMap.get assetId cache) as [d|]; [reflexivity|].
  destruct (downloadRobloxAudio w assetId) as [p| |]; try reflexivity.
  destruct (analyzeAudio pow_approx w p) as [f| |]; try reflexivity.
  destruct (unlinkSync w p); cbn [fst snd]; rewrite JSMap_set_to_gmap; reflexivity.
Qed.

(** What a request can do: answer from the [Map]; fail, or never
    answer, and leave the [Map] as it is; or store the result of the
    analysis, and then answer with it or with the error of [unlinkSync]. *)
Lemma analyze_route_cases w assetId (cache cache' : JSMap.t) r :
  analyze_route pow_approx w assetId cache = (r, cache') ->
  (exists d, JSMap.get assetId cache = Some d
             /\ r = Some (Ok200 true d) /\ cache' = cache)
  \/ (JSMap.has assetId cache = false /\ cache' = cache
      /\ (r = None \/ exists message, r = Some (Error500 message)))
  \/ (JSMap.has assetId cache = false
      /\ exists d, cache' = JSMap.set assetId d cache
                   /\ (r = Some (Ok200 false d)
                       \/ exists message, r = Some (Error500 message))).
Proof.
  unfold analyze_route, JSMap.has.
  destruct (JSMap.get assetId cache) as [d|] eqn:Hget.
  { intros [= <- <-]. left. eauto. }
  destruct (downloadRobloxAudio w assetId) as [p| |].
  2,3: intros [= <- <-]; right; left; eauto.
  destruct (analyzeAudio pow_approx w p) as [f| |].
  2,3: intros [= <- <-]; right; left; eauto.
  intros H. right. right. split; [reflexivity|]. exists f.
  destruct (unlinkSync w p); injection H as <- <-; split; eauto.
Qed.

Lemma route_keys (q : request) (cache cache' : JSMap.t) r :
  route pow_approx q cache = (r, cache') ->
  JSMap.keys cache' = JSMap.keys cache
  \/ exists w assetId d,
       q = GetAnalyze w assetId
       /\ JSMap.has assetId cache = false
       /\ cache' = JSMap.set assetId d cache
       /\ JSMap.keys cache' = JSMap.keys cache ++ [assetId]
       /\ (r = Some (Analysis (Ok200 false d))
           \/ exists message, r = Some (Analysis (Error500 message))).
Proof.
  destruct q as [|w assetId|]; cbn [route].
  - intros [= <- <-]. left. reflexivity.
  - destruct (analyze_route pow_approx w assetId cache) as [r0 c0] eqn:Hroute.
    apply analyze_route_cases in Hroute as H.
    intros [= <- <-].
    destruct H as [(d & _ & _ & ->)|[(_ & -> & _)|(Hhas & d & -> & Hr)]];
      [left; reflexivity..|].
    right. exists w, assetId, d. split; [reflexivity|]. split; [assumption|].
    split; [reflexivity|]. split.
    + rewrite JSMap_keys_set, Hhas. reflexivity.
    + destruct Hr as [->|(message & ->)]; [left; reflexivity|right; eauto].
  - intros [= <- <-]. left. reflexivity.
Qed.

Lemma run_NoDup (requests : list request) (cache cache' : JSMap.t) rs :
  run pow_approx requests cache = (rs, cache') ->
  NoDup (JSMap.keys cache) -> NoDup (JSMap.keys cache').
Proof.
  revert cache rs. induction requests as [|q rest IH]; intros cache rs H Hnd.
  - injection H as _ <-. assumption.
  - cbn [run] in H. destruct (route pow_approx q cache) as [r c1] eqn:Hq.
    destruct (run pow_approx rest c1) as [rs' c2] eqn:Hrest.
    injection H as _ <-. eapply IH; [eassumption|].
    destruct (route_keys _ _ _ _ Hq) as [->|(w & a & d & _ & _ & -> & _ & _)];
      [assumption|]. apply JSMap_NoDup_set. assumption.
Qed.

End RouteFacts.

(* ================================================================== *)
(** ** The temp path and the asset id read back from it *)
(* ================================================================== *)

Section Paths.

Implicit Types (s t cur : string).

Lemma append_cons c s t : String c s +:+ t = String c (s +:+ t).
Proof. reflexivity. Qed.

Lemma append_nil_r s : s +:+ "" = s.
Proof. induction s as [|c s IH]; [reflexivity|]. rewrite !append_cons, IH. reflexivity. Qed.

Lemma append_assoc s t u : (s +:+ t) +:+ u = s +:+ t +:+ u.
Proof. induction s as [|c s IH]; [reflexivity|]. rewrite !append_cons, IH. reflexivity. Qed.

Lemma length_append s t :
  String.length (s +:+ t) = (String.length s + String.length t)%nat.
Proof. induction s as [|c s IH]; [reflexivity|]. rewrite append_cons. simpl. rewrite IH. reflexivity. Qed.

Lemma append_inv_head s t u : s +:+ t = s +:+ u -> t = u.
Proof. induction s as [|c s IH]; [auto|]. rewrite !append_cons. intros [= H]. auto. Qed.

Lemma append_inv_tail s t u : s +:+ u = t +:+ u -> s = t.
Proof.
  intros H. assert (Hlen : String.length s = String.length t).
  { apply (f_equal String.length) in H. rewrite !length_append in H. lia. }
  revert t H Hlen. induction s as [|c s IH]; intros [|c' t] H Hlen;
    try discriminate; [reflexivity|].
  rewrite !append_cons in H. simpl in Hlen. injection H as -> H. f_equal.
  apply IH; [assumption|lia].
Qed.

Lemma slash_free_append s t :
  slash_free (s +:+ t) = slash_free s && slash_free t.
Proof.
  induction s as [|c s IH]; [reflexivity|]. rewrite append_cons. simpl. rewrite IH.
  destruct (Ascii.eqb c "/"); reflexivity.
Qed.

Lemma last_segment_append s t cur :
  last_segment (s +:+ t) cur = last_segment t (last_segment s cur).
Proof.
  revert cur. induction s as [|c s IH]; intros cur; [reflexivity|].
  rewrite append_cons. simpl. destruct (Ascii.eqb c "/"); apply IH.
Qed.

Lemma last_segment_slash_free s cur :
  slash_free s = true -> last_segment s cur = cur +:+ s.
Proof.
  revert cur. induction s as [|c s IH]; intros cur; simpl.
  - intros _. symmetry. apply append_nil_r.
  - destruct (Ascii.eqb c "/"); [discriminate|]. simpl. intros H.
    rewrite IH by assumption. rewrite append_assoc. reflexivity.
Qed.

Lemma substring_append_l s t :
  substring 0 (String.length s) (s +:+ t) = s.
Proof.
  induction s as [|c s IH]; [destruct t; reflexivity|].
  rewrite append_cons. simpl. rewrite IH. reflexivity.
Qed.

Lemma substring_append_r s t :
  substring (String.length s) (String.length t) (s +:+ t) = t.
Proof.
  induction s as [|c s IH]; [|rewrite append_cons; exact IH].
  change ("" +:+ t) with t. change (String.length "") with 0%nat.
  induction t as [|c t IH]; [reflexivity|]. simpl. rewrite IH. reflexivity.
Qed.

Lemma basename_strip p name ext :
  last_segment p "" = name +:+ ext -> name <> ""%string ->
  basename p ext = name.
Proof.
  intros Hseg Hne. unfold basename. rewrite Hseg, length_append.
  replace (String.length name + String.length ext - String.length ext)%nat
    with (String.length name) by lia.
  rewrite substring_append_r, substring_append_l, String.eqb_refl.
  destruct name as [|c s]; [congruence|]. cbn [String.length].
  replace (String.length ext <? S (String.length s) + String.length ext)%nat
    with true by (symmetry; apply Nat.ltb_lt; lia).
  reflexivity.
Qed.

Lemma basename_temp_path dir assetId :
  slash_free assetId = true -> assetId <> ""%string ->
  basename (dir +:+ "/" +:+ assetId +:+ ".mp3") ".mp3" = assetId.
Proof.
  intros Hfree Hne. apply basename_strip; [|assumption].
  rewrite last_segment_append.
  change (last_segment ("/" +:+ assetId +:+ ".mp3") (last_segment dir ""))
    with (last_segment (assetId +:+ ".mp3") "").
  rewrite last_segment_slash_free
    by (rewrite slash_free_append, Hfree; reflexivity).
  reflexivity.
Qed.

Lemma downloadRobloxAudio_path w assetId audioPath :
  downloadRobloxAudio w assetId = Returns audioPath ->
  audioPath = (dirname w +:+ "/temp") +:+ "/" +:+ assetId +:+ ".mp3".
Proof.
  unfold downloadRobloxAudio.
  destruct (if existsSync w _ then None else mkdirSync w _); [discriminate|].
  destruct (axios w _); [discriminate|].
  destruct (pipe_to_file w _); [|discriminate..]. intros [= <-]. reflexivity.
Qed.

End Paths.

(* ================================================================== *)
(** ** What [analyzeAudio] can answer *)
(* ================================================================== *)

Lemma analyzeAudio_returns pow_approx w audioPath r :
  analyzeAudio pow_approx w audioPath = Returns r ->
  exists out,
    execAsync w (Ffprobe audioPath) = ExecOk out
    /\ r = {| AnalysisResult.assetId := basename audioPath ".mp3";
              AnalysisResult.duration := parseFloat (trim out);
              AnalysisResult.interval := interval;
              AnalysisResult.samples :=
                Z.to_nat (window_count (Math_floor (parseFloat (trim out) / interval)));
              AnalysisResult.data :=
                sample_at pow_approx w audioPath
                  <$> seqZ 0 (window_count (Math_floor (parseFloat (trim out) / interval))) |}.
Proof.
  unfold analyzeAudio. rewrite analyzeAudio_run_closed.
  destruct (execAsync w (Ffprobe audioPath)) as [out|message]; [|discriminate].
  cbv zeta. intros H. exists out. split; [reflexivity|].
  destruct (Math_floor (parseFloat (trim out) / interval)) as [|[|]|N];
    cbn [fst] in H; try discriminate; injection H as <-; reflexivity.
Qed.





(* ================================================================== *)
(** ** Further properties of the routes *)
(* ================================================================== *)

(** X1: for an asset id that is not empty and holds no [/], the
    [assetId] of the result that [analyzeAudio] reads back from the temp
    path of [downloadRobloxAudio] is the id that was requested. *)
Theorem result_names_requested_asset pow_approx w assetId audioPath r :
  slash_free assetId = true ->
  assetId <> ""%string ->
  downloadRobloxAudio w assetId = Returns audioPath ->
  analyzeAudio pow_approx w audioPath = Returns r ->
  AnalysisResult.assetId r = assetId.
Proof.
  intros Hfree Hne Hdl Han.
  apply downloadRobloxAudio_path in Hdl. subst audioPath.
  apply analyzeAudio_returns in Han as (out & _ & ->).
  cbn [AnalysisResult.assetId]. apply basename_temp_path; assumption.
Qed.

Lemma result_names_requested_asset_witness :
  AnalysisResult.assetId steady_result = "123"%string.
Proof.
  apply (result_names_requested_asset pow_table steady_world "123"
           "/app/temp/123.mp3" steady_result).
  - reflexivity.
  - discriminate.
  - reflexivity.
  - vm_compute. reflexivity.
Defined.

(** X2: in one world, the temp paths of two asset ids without [/] are
    the same path only for the same id: downloads of different assets
    never share a temp file. *)
Theorem temp_paths_distinct w a b pa pb :
  slash_free a = true ->
  slash_free b = true ->
  downloadRobloxAudio w a = Returns pa ->
  downloadRobloxAudio w b = Returns pb ->
  pa = pb <-> a = b.
Proof.
  intros _ _ Ha Hb. apply downloadRobloxAudio_path in Ha, Hb. subst pa pb. split.
  - intros H. apply append_inv_head, (append_inv_head "/") in H.
    apply append_inv_tail in H. assumption.
  - intros ->. reflexivity.
Qed.

Lemma temp_paths_distinct_witness :
  "/app/temp/123.mp3"%string = "/app/temp/456.mp3"%string
  <-> "123"%string = "456"%string.
Proof.
  apply (temp_paths_distinct steady_world "123" "456"); reflexivity.
Defined.

Section RouteTheorems.

Variable pow_approx : float -> float -> float.

Lemma analyze_route_entry w assetId (cache cache' : JSMap.t) r k d :
  analyze_route pow_approx w assetId cache = (r, cache') ->
  JSMap.get k cache' = Some d ->
  JSMap.get k cache = Some d
  \/ (k = assetId
      /\ exists audioPath,
           downloadRobloxAudio w assetId = Returns audioPath
           /\ analyzeAudio pow_approx w audioPath = Returns d).
Proof using Type.
  unfold analyze_route, JSMap.has.
  destruct (JSMap.get assetId cache) as [d0|] eqn:Hget.
  { intros [= <- <-]. auto. }
  destruct (downloadRobloxAudio w assetId) as [p| |] eqn:Hdl;
    [|intros [= <- <-]; auto..].
  destruct (analyzeAudio pow_approx w p) as [f| |] eqn:Han;
    [|intros [= <- <-]; auto..].
  intros H Hk. assert (cache' = JSMap.set assetId f cache) as ->
    by (destruct (unlinkSync w p); injection H as _ <-; reflexivity).
  rewrite JSMap_get_set in Hk. destruct (String.eqb_spec k assetId) as [->|Hne].
  - injection Hk as <-. right. eauto.
  - auto.
Qed.

Lemma run_entries (requests : list request) (cache cache' : JSMap.t) rs k d :
  run pow_approx requests cache = (rs, cache') ->
  JSMap.get k cache' = Some d ->
  JSMap.get k cache = Some d
  \/ exists w audioPath,
       GetAnalyze w k ∈ requests
       /\ downloadRobloxAudio w k = Returns audioPath
       /\ analyzeAudio pow_approx w audioPath = Returns d.
Proof using Type.
  revert cache rs. induction requests as [|q rest IH]; intros cache rs H Hk.
  - injection H as _ <-. auto.
  - cbn [run] in H. destruct (route pow_approx q cache) as [r c1] eqn:Hq.
    destruct (run pow_approx rest c1) as [rs' c2] eqn:Hrest.
    injection H as _ <-.
    destruct (IH _ _ Hrest Hk) as [Hk1|(w & p & Hin & Hdl & Han)].
    2:{ right. exists w, p. split; [apply elem_of_cons; auto|auto]. }
    destruct q as [|w a|]; cbn [route] in Hq.
    + injection Hq as _ <-. auto.
    + destruct (analyze_route pow_approx w a cache) as [r0 c0] eqn:Hroute.
      injection Hq as _ <-.
      destruct (analyze_route_entry _ _ _ _ _ _ _ Hroute Hk1)
        as [?|(-> & p & Hdl & Han)]; [auto|].
      right. exists w, p. split; [apply elem_of_cons; auto|auto].
    + injection Hq as _ <-. auto.
Qed.

Lemma analyze_route_cached_iff w assetId (cache : JSMap.t) :
  JSMap.has assetId cache = true
  <-> exists d, analyze_route pow_approx w assetId cache = (Some (Ok200 true d), cache).
Proof using Type.
  unfold analyze_route, JSMap.has.
  destruct (JSMap.get assetId cache) as [d0|] eqn:Hget.
  { split; eauto. }
  split; [discriminate|]. intros (d & H). exfalso.
  destruct (downloadRobloxAudio w assetId) as [p| |]; try discriminate.
  destruct (analyzeAudio pow_approx w p) as [f| |]; try discriminate.
  destruct (unlinkSync w p); discriminate.
Qed.

End RouteTheorems.

(* ================================================================== *)
(** ** Requests that overlap: what the [Map] keeps *)
(* ================================================================== *)

Section Overlap.

Variable pow_approx : float -> float -> float.

Lemma analyze_route_finish w assetId (cache : JSMap.t) :
  analyze_route pow_approx w assetId cache
  = if JSMap.has assetId cache then
      match JSMap.get assetId cache with
      | Some cached => (Some (Ok200 true cached), cache)
      | None => (None, cache)
      end
    else finish pow_approx w assetId cache.
Proof using Type. reflexivity. Qed.

(** What [finish] does to the [Map]: nothing, or [set] the result of
    the analysis of that asset's download. *)
Lemma finish_cases w assetId (cache cache' : JSMap.t) r :
  finish pow_approx w assetId cache = (r, cache') ->
  cache' = cache
  \/ exists audioPath d,
       downloadRobloxAudio w assetId = Returns audioPath
       /\ analyzeAudio pow_approx w audioPath = Returns d
       /\ cache' = JSMap.set assetId d cache.
Proof using Type.
  unfold finish.
  destruct (downloadRobloxAudio w assetId) as [p| |] eqn:Hdl;
    [|intros [= <- <-]; auto..].
  destruct (analyzeAudio pow_approx w p) as [d| |] eqn:Han;
    [|intros [= <- <-]; auto..].
  intros H. right. exists p, d. split; [reflexivity|]. split; [exact Han|].
  destruct (unlinkSync w p); injection H as _ <-; reflexivity.
Qed.

(** One step: the [Map] is left as it is, or a request that was in
    flight stores its result; the requests in flight afterwards were in
    flight before or have just arrived, for an asset not in the [Map]. *)
Lemma step_cases (a : action) (s s' : Server.t) r :
  step pow_approx a s = (r, s') ->
  (Server.cache s' = Server.cache s
   \/ exists i w assetId audioPath d,
        a = Settle i
        /\ Server.in_flight s !! i = Some (w, assetId)
        /\ downloadRobloxAudio w assetId = Returns audioPath
        /\ analyzeAudio pow_approx w audioPath = Returns d
        /\ Server.cache s' = JSMap.set assetId d (Server.cache s))
  /\ forall w assetId, (w, assetId) ∈ Server.in_flight s' ->
       (w, assetId) ∈ Server.in_flight s
       \/ (a = Arrive (GetAnalyze w assetId)
           /\ JSMap.has assetId (Server.cache s) = false).
Proof using Type.
  destruct a as [[|w0 a0|]|i]; cbn [step route].
  - intros [= <- <-]. cbn. auto.
  - destruct (JSMap.has a0 (Server.cache s)) eqn:Hhas.
    + destruct (JSMap.get a0 (Server.cache s)); intros [= <- <-]; auto.
    + intros [= <- <-]. cbn [Server.cache Server.in_flight]. split; [auto|].
      intros w a Hin. apply elem_of_app in Hin as [Hin|Hin]; [auto|].
      apply list_elem_of_singleton in Hin. injection Hin as -> ->. auto.
  - intros [= <- <-]. cbn. auto.
  - destruct (Server.in_flight s !! i) as [[w0 a0]|] eqn:Hi; [|intros [= <- <-]; auto].
    destruct (finish pow_approx w0 a0 (Server.cache s)) as [r0 c0] eqn:Hfin.
    intros [= <- <-]. cbn [Server.cache Server.in_flight]. split.
    + apply finish_cases in Hfin as [->|(p & d & Hdl & Han & ->)]; [auto|].
      right. exists i, w0, a0, p, d. auto.
    + intros w a Hin. left. eapply list_elem_of_delete_inv. eassumption.
Qed.

Lemma JSMap_has_set (m : JSMap.t) (k k' : string) (v : AnalysisResult.t) :
  JSMap.has k' m = true -> JSMap.has k' (JSMap.set k v m) = true.
Proof using Type.
  unfold JSMap.has. rewrite JSMap_get_set.
  destruct (String.eqb k' k); [reflexivity|auto].
Qed.

(** Where a request in flight comes from. *)
Lemma schedule_in_flight (actions : list action) (s s' : Server.t) rs w assetId :
  schedule pow_approx actions s = (rs, s') ->
  (w, assetId) ∈ Server.in_flight s' ->
  (w, assetId) ∈ Server.in_flight s \/ Arrive (GetAnalyze w assetId) ∈ actions.
Proof using Type.
  revert s rs. induction actions as [|a rest IH]; intros s rs H Hin.
  - injection H as _ <-. auto.
  - cbn [schedule] in H. destruct (step pow_approx a s) as [r s1] eqn:Hstep.
    destruct (schedule pow_approx rest s1) as [rs' s2] eqn:Hrest.
    injection H as _ <-.
    destruct (IH _ _ Hrest Hin) as [Hin1|Hin1]; [|right; apply elem_of_cons; auto].
    apply step_cases in Hstep as [_ Hfl].
    destruct (Hfl _ _ Hin1) as [?|[-> _]]; [auto|]. right. apply elem_of_cons. auto.
Qed.

Lemma schedule_keys (actions : list action) (s s' : Server.t) rs :
  schedule pow_approx actions s = (rs, s') ->
  exists added,
    JSMap.keys (Server.cache s') = JSMap.keys (Server.cache s) ++ added
    /\ forall assetId, assetId ∈ added ->
         JSMap.has assetId (Server.cache s) = false
         /\ exists w, (w, assetId) ∈ Server.in_flight s
                      \/ Arrive (GetAnalyze w assetId) ∈ actions.
Proof using Type.
  revert s rs. induction actions as [|a rest IH]; intros s rs H.
  - injection H as _ <-. exists []. rewrite app_nil_r. split; [reflexivity|].
    intros a Hin. apply elem_of_nil in Hin as [].
  - cbn [schedule] in H. destruct (step pow_approx a s) as [r s1] eqn:Hstep.
    destruct (schedule pow_approx rest s1) as [rs' s2] eqn:Hrest.
    injection H as _ <-.
    destruct (IH _ _ Hrest) as (added & Hkeys & Hadded).
    pose proof (step_cases _ _ _ _ Hstep) as [Hcache Hfl].
    assert (Horigin : forall id, (exists w, (w, id) ∈ Server.in_flight s1
                                         \/ Arrive (GetAnalyze w id) ∈ rest) ->
                        exists w, (w, id) ∈ Server.in_flight s
                                  \/ Arrive (GetAnalyze w id) ∈ a :: rest).
    { intros id (w & [Hin|Hin]).
      - destruct (Hfl _ _ Hin) as [?|[-> _]]; exists w; [auto|].
        right. apply elem_of_cons. auto.
      - exists w. right. apply elem_of_cons. auto. }
    destruct Hcache as [Heq|(i & w & id & p & d & -> & Hi & Hdl & Han & Hset)].
    + rewrite Heq in *. exists added. split; [assumption|].
      intros id Hin. destruct (Hadded id Hin) as [Hhas Hw]. auto.
    + rewrite Hset, JSMap_keys_set in Hkeys.
      assert (Hmono : forall id', JSMap.has id' (Server.cache s1) = false ->
                                  JSMap.has id' (Server.cache s) = false).
      { intros id' Hf. destruct (JSMap.has id' (Server.cache s)) eqn:Ht; [|reflexivity].
        rewrite Hset, (JSMap_has_set _ _ _ _ Ht) in Hf. discriminate. }
      destruct (JSMap.has id (Server.cache s)) eqn:Hhas.
      * exists added. split; [assumption|].
        intros id' Hin. destruct (Hadded id' Hin) as [Hhas' Hw]. auto.
      * exists ([id] ++ added). rewrite Hkeys, <- app_assoc. split; [reflexivity|].
        intros id' Hin. apply elem_of_app in Hin as [Hin|Hin].
        -- apply list_elem_of_singleton in Hin. subst id'. split; [assumption|].
           exists w. left. eapply list_elem_of_lookup_2. eassumption.
        -- destruct (Hadded id' Hin) as [Hhas' Hw]. auto.
Qed.

(** An entry for which no request is in flight stays as it is. *)
Lemma schedule_keeps (actions : list action) (s s' : Server.t) rs assetId d :
  schedule pow_approx actions s = (rs, s') ->
  JSMap.get assetId (Server.cache s) = Some d ->
  (forall w, (w, assetId) ∉ Server.in_flight s) ->
  JSMap.get assetId (Server.cache s') = Some d
  /\ forall w, (w, assetId) ∉ Server.in_flight s'.
Proof using Type.
  revert s rs. induction actions as [|a rest IH]; intros s rs H Hget Hfree.
  - injection H as _ <-. auto.
  - cbn [schedule] in H. destruct (step pow_approx a s) as [r s1] eqn:Hstep.
    destruct (schedule pow_approx rest s1) as [rs' s2] eqn:Hrest.
    injection H as _ <-. apply (IH _ _ Hrest).
    + apply step_cases in Hstep as [[->|(i & w & id & p & d0 & _ & Hi & _ & _ & ->)] _];
        [assumption|].
      rewrite JSMap_get_set. destruct (String.eqb_spec assetId id) as [->|_]; [|assumption].
      destruct (Hfree w). eapply list_elem_of_lookup_2. eassumption.
    + intros w Hin. apply step_cases in Hstep as [_ Hfl].
      destruct (Hfl _ _ Hin) as [Hin'|[_ Hhas]]; [exact (Hfree w Hin')|].
      unfold JSMap.has in Hhas. rewrite Hget in Hhas. discriminate.
Qed.

(** Every entry is the result of an analysis of that asset. *)
Lemma schedule_entries (actions : list action) (s s' : Server.t) rs assetId d :
  schedule pow_approx actions s = (rs, s') ->
  JSMap.get assetId (Server.cache s') = Some d ->
  JSMap.get assetId (Server.cache s) = Some d
  \/ exists w audioPath,
       ((w, assetId) ∈ Server.in_flight s \/ Arrive (GetAnalyze w assetId) ∈ actions)
       /\ downloadRobloxAudio w assetId = Returns audioPath
       /\ analyzeAudio pow_approx w audioPath = Returns d.
Proof using Type.
  revert s rs. induction actions as [|a rest IH]; intros s rs H Hget.
  - injection H as _ <-. auto.
  - cbn [schedule] in H. destruct (step pow_approx a s) as [r s1] eqn:Hstep.
    destruct (schedule pow_approx rest s1) as [rs' s2] eqn:Hrest.
    injection H as _ <-.
    pose proof (step_cases _ _ _ _ Hstep) as [Hcache Hfl].
    destruct (IH _ _ Hrest Hget) as [Hget1|(w & p & Horigin & Hdl & Han)].
    + destruct Hcache as [<-|(i & w & id & p & d0 & -> & Hi & Hdl & Han & Hset)]; [auto|].
      rewrite Hset, JSMap_get_set in Hget1.
      destruct (String.eqb_spec assetId id) as [->|_]; [|auto].
      injection Hget1 as ->. right. exists w, p. split; [|auto].
      left. eapply list_elem_of_lookup_2. eassumption.
    + right. exists w, p. split; [|auto].
      destruct Horigin as [Hin|Hin]; [|right; apply elem_of_cons; auto].
      destruct (Hfl _ _ Hin) as [?|[-> _]]; [auto|]. right. apply elem_of_cons. auto.
Qed.

(** Handling the requests one by one is one of the schedules. *)
Lemma one_by_one_run (requests : list request) (cache : JSMap.t) :
  let '(rs, s) := schedule pow_approx (one_by_one requests) (Server.mk cache []) in
  omap id rs = omap id (fst (run pow_approx requests cache))
  /\ s = Server.mk (snd (run pow_approx requests cache)) [].
Proof using Type.
  revert cache. induction requests as [|q rest IH]; intros cache; [split; reflexivity|].
  change (one_by_one (q :: rest)) with (Arrive q :: Settle 0 :: one_by_one rest).
  cbn [schedule run].
  destruct (route pow_approx q cache) as [r c1] eqn:Hroute.
  assert (Hsteps : exists r1 r2,
            step pow_approx (Arrive q) (Server.mk cache []) = (r1, snd (step pow_approx (Arrive q) (Server.mk cache [])))
            /\ step pow_approx (Settle 0) (snd (step pow_approx (Arrive q) (Server.mk cache [])))
               = (r2, Server.mk c1 [])
            /\ omap id [r1; r2] = omap id [r]).
  { destruct q as [|w a|]; cbn [step route Server.cache Server.in_flight] in *.
    - injection Hroute as <- <-. eexists _, _. repeat split.
    - rewrite analyze_route_finish in Hroute.
      destruct (JSMap.has a cache) eqn:Hhas.
      + destruct (JSMap.get a cache) as [d|]; injection Hroute as <- <-;
          eexists _, _; repeat split.
      + cbn [snd Server.in_flight Server.cache app lookup list_lookup].
        destruct (finish pow_approx w a cache) as [r0 c0]. injection Hroute as <- <-.
        eexists _, _. split; [reflexivity|]. split; [reflexivity|].
        destruct r0; reflexivity.
    - injection Hroute as <- <-. eexists _, _. repeat split. }
  destruct Hsteps as (r1 & r2 & H1 & H2 & Hr). rewrite H1, H2.
  specialize (IH c1).
  destruct (schedule pow_approx (one_by_one rest) (Server.mk c1 [])) as [rs s].
  destruct (run pow_approx rest c1) as [rs' c2]. cbn [fst snd] in *.
  destruct IH as [IHr ->]. split; [|reflexivity].
  change (r1 :: r2 :: rs) with ([r1; r2] ++ rs). change (r :: rs') with ([r] ++ rs').
  rewrite !omap_app, Hr, IHr. reflexivity.
Qed.

End Overlap.

(** Two requests for asset 123 overlap: the first is handled in the
    steady world, the second where [ffprobe] prints no duration.  Both
    pass the [cache.has] test before either settles, both are answered
    [cached: false], and the entry the first one stored is replaced by
    the result of the second: the last write wins. *)
Example overlapping_requests_overwrite :
  schedule pow_table
    [Arrive (GetAnalyze steady_world "123");
     Arrive (GetAnalyze unknown_duration_world "123");
     Settle 0; Arrive GetCache; Settle 0; Arrive GetCache]
    (Server.mk [] [])
  = ([None; None;
      Some (Analysis (Ok200 false steady_result));
      Some (CacheStatus 1 ["123"%string]);
      Some (Analysis (Ok200 false
        {| AnalysisResult.assetId := "123";
           AnalysisResult.duration := nan;
           AnalysisResult.interval := interval;
           AnalysisResult.samples := 0;
           AnalysisResult.data := [] |}));
      Some (CacheStatus 1 ["123"%string])],
     Server.mk
       [("123"%string,
         {| AnalysisResult.assetId := "123";
            AnalysisResult.duration := nan;
            AnalysisResult.interval := interval;
            AnalysisResult.samples := 0;
            AnalysisResult.data := [] |})] []).
Proof. vm_compute. reflexivity. Qed.

(** X3: what the [Map] keeps when requests overlap.  Over any schedule
    of arrivals and settlings, the keys of the [Map] stay, in their
    order, and the new keys come after them, each for an asset that was
    absent and that a request in flight or arriving asks for (no entry
    is evicted).  The entry of an asset for which no request is in
    flight stays as it is, no request for that asset goes in flight any
    more, and one that arrives is answered [cached: true] with the
    entry: an entry is replaced only by a request for the same asset
    that had passed the [cache.has] test before the entry was stored.
    And every entry is an old one or the result that [analyzeAudio]
    returned for that asset's download in a request in flight or
    arriving. *)
Theorem cache_keeps_its_keys pow_approx actions rs (s s' : Server.t) :
  schedule pow_approx actions s = (rs, s') ->
  (exists added,
     JSMap.keys (Server.cache s') = JSMap.keys (Server.cache s) ++ added
     /\ forall assetId, assetId ∈ added ->
          JSMap.has assetId (Server.cache s) = false
          /\ exists w, (w, assetId) ∈ Server.in_flight s
                       \/ Arrive (GetAnalyze w assetId) ∈ actions)
  /\ (forall assetId d,
        JSMap.get assetId (Server.cache s) = Some d ->
        (forall w, (w, assetId) ∉ Server.in_flight s) ->
        JSMap.get assetId (Server.cache s') = Some d
        /\ (forall w, (w, assetId) ∉ Server.in_flight s')
        /\ forall w, step pow_approx (Arrive (GetAnalyze w assetId)) s'
                     = (Some (Analysis (Ok200 true d)), s'))
  /\ (forall assetId d,
        JSMap.get assetId (Server.cache s') = Some d ->
        JSMap.get assetId (Server.cache s) = Some d
        \/ exists w audioPath,
             ((w, assetId) ∈ Server.in_flight s
              \/ Arrive (GetAnalyze w assetId) ∈ actions)
             /\ downloadRobloxAudio w assetId = Returns audioPath
             /\ analyzeAudio pow_approx w audioPath = Returns d).
Proof.
  intros H. split; [|split].
  - eapply schedule_keys. eassumption.
  - intros assetId d Hget Hfree.
    destruct (schedule_keeps _ _ _ _ _ _ _ H Hget Hfree) as [Hget' Hfree'].
    split; [assumption|]. split; [assumption|].
    intros w. cbn [step]. unfold JSMap.has. rewrite Hget'. reflexivity.
  - intros assetId d. eapply schedule_entries. eassumption.
Qed.

Lemma cache_keeps_its_keys_witness :
  let actions :=
    [Arrive (GetAnalyze steady_world "456");
     Arrive (GetAnalyze unknown_duration_world "456");
     Settle 1; Arrive GetCache; Settle 0] in
  let s := Server.mk [("123"%string, steady_result)] [] in
  let s' := snd (schedule pow_table actions s) in
  (exists added,
     JSMap.keys (Server.cache s') = JSMap.keys (Server.cache s) ++ added
     /\ forall assetId, assetId ∈ added ->
          JSMap.has assetId (Server.cache s) = false
          /\ exists w, (w, assetId) ∈ Server.in_flight s
                       \/ Arrive (GetAnalyze w assetId) ∈ actions)
  /\ (forall assetId d,
        JSMap.get assetId (Server.cache s) = Some d ->
        (forall w, (w, assetId) ∉ Server.in_flight s) ->
        JSMap.get assetId (Server.cache s') = Some d
        /\ (forall w, (w, assetId) ∉ Server.in_flight s')
        /\ forall w, step pow_table (Arrive (GetAnalyze w assetId)) s'
                     = (Some (Analysis (Ok200 true d)), s'))
  /\ (forall assetId d,
        JSMap.get assetId (Server.cache s') = Some d ->
        JSMap.get assetId (Server.cache s) = Some d
        \/ exists w audioPath,
             ((w, assetId) ∈ Server.in_flight s
              \/ Arrive (GetAnalyze w assetId) ∈ actions)
             /\ downloadRobloxAudio w assetId = Returns audioPath
             /\ analyzeAudio pow_table w audioPath = Returns d).
Proof.
  intros actions s s'.
  apply (cache_keeps_its_keys pow_table actions
           (fst (schedule pow_table actions s)) s s').
  apply surjective_pairing.
Defined.

(** X4: what [GET /api/cache] answers after any requests from an empty
    [Map]: [cached_songs] is the length of [asset_ids], no id is listed
    twice, and an id is listed exactly when a request for that asset is
    answered [cached: true] (in any world).  The [Map] is left as it
    is. *)
Theorem cache_status_lists_cached_assets pow_approx requests rs (cache : JSMap.t) :
  run pow_approx requests [] = (rs, cache) ->
  exists ids,
    route pow_approx GetCache cache = (Some (CacheStatus (length ids) ids), cache)
    /\ NoDup ids
    /\ forall w assetId,
         assetId ∈ ids
         <-> exists d, route pow_approx (GetAnalyze w assetId) cache
                       = (Some (Analysis (Ok200 true d)), cache).
Proof.
  intros H. exists (JSMap.keys cache). split; [|split].
  - cbn [route]. unfold JSMap.size, JSMap.keys. rewrite length_fmap. reflexivity.
  - apply (run_NoDup _ _ _ _ _ H). apply NoDup_nil_2.
  - intros w a. rewrite <- JSMap_has_keys, (analyze_route_cached_iff pow_approx w).
    cbn [route]. split.
    + intros (d & ->). exists d. reflexivity.
    + intros (d & Hd). exists d.
      destruct (analyze_route pow_approx w a cache) as [[[c d'|e]|] m'];
        cbn in Hd; congruence.
Qed.

Lemma cache_status_lists_cached_assets_witness :
  exists ids,
    route pow_table GetCache
      [("123"%string, steady_result)]
    = (Some (CacheStatus (length ids) ids), [("123"%string, steady_result)])
    /\ NoDup ids
    /\ forall w assetId,
         assetId ∈ ids
         <-> exists d, route pow_table (GetAnalyze w assetId)
                         [("123"%string, steady_result)]
                       = (Some (Analysis (Ok200 true d)),
                          [("123"%string, steady_result)]).
Proof.
  apply (cache_status_lists_cached_assets pow_table
           [GetAnalyze steady_world "123"; GetCache]
           [Some (Analysis (Ok200 false steady_result));
            Some (CacheStatus 1 ["123"%string])]).
  vm_compute. reflexivity.
Defined.







(** X8: where the entries of the [Map] come from.  After any requests
    from an empty [Map], the entry of an asset is the result that
    [analyzeAudio] returned for the download of that asset in one of the
    requests; so its [samples] is the length of its [data], its
    [interval] is [0.1], and, for an id that is not empty and holds no
    [/], its [assetId] is the key it is stored under. *)
Theorem cached_entries_come_from_analysis pow_approx requests rs (cache : JSMap.t)
    assetId d :
  run pow_approx requests [] = (rs, cache) ->
  JSMap.get assetId cache = Some d ->
  (exists w audioPath,
     GetAnalyze w assetId ∈ requests
     /\ downloadRobloxAudio w assetId = Returns audioPath
     /\ analyzeAudio pow_approx w audioPath = Returns d)
  /\ AnalysisResult.samples d = length (AnalysisResult.data d)
  /\ AnalysisResult.interval d = interval
  /\ (slash_free assetId = true -> assetId <> ""%string ->
      AnalysisResult.assetId d = assetId).
Proof.
  intros Hrun Hget.
  destruct (run_entries _ _ _ _ _ _ _ Hrun Hget) as [[=]|(w & p & Hin & Hdl & Han)].
  split; [eauto|].
  pose proof Han as Hshape. apply analyzeAudio_returns in Hshape as (out & _ & Hd).
  split; [|split].
  - rewrite Hd. cbn [AnalysisResult.samples AnalysisResult.data].
    rewrite length_fmap, length_seqZ. reflexivity.
  - rewrite Hd. reflexivity.
  - intros Hfree Hne. apply downloadRobloxAudio_path in Hdl. rewrite Hd, Hdl.
    apply basename_temp_path; assumption.
Qed.

Lemma cached_entries_come_from_analysis_witness :
  (exists w audioPath,
     GetAnalyze w "123" ∈ [GetAnalyze steady_world "123"; GetCache]
     /\ downloadRobloxAudio w "123" = Returns audioPath
     /\ analyzeAudio pow_table w audioPath = Returns steady_result)
  /\ AnalysisResult.samples steady_result = length (AnalysisResult.data steady_result)
  /\ AnalysisResult.interval steady_result = interval
  /\ (slash_free "123" = true -> "123"%string <> ""%string ->
      AnalysisResult.assetId steady_result = "123"%string).
Proof.
  apply (cached_entries_come_from_analysis pow_table
           [GetAnalyze steady_world "123"; GetCache]
           [Some (Analysis (Ok200 false steady_result));
            Some (CacheStatus 1 ["123"%string])]
           [("123"%string, steady_result)] "123" steady_result).
  - vm_compute. reflexivity.
  - reflexivity.
Defined.

(* ================================================================== *)
(** ** The two regular expressions of [analyzeSample] *)
(* ================================================================== *)

Lemma strip_prefix_Some (p s rest : string) :
  strip_prefix p s = Some rest <-> s = p +:+ rest.
Proof.
  revert s. induction p as [|a p IH]; intros s.
  - change ("" +:+ rest) with rest. cbn [strip_prefix].
    destruct s; split; congruence.
  - rewrite append_cons. destruct s as [|b s]; cbn [strip_prefix]; [split; discriminate|].
    destruct (Ascii.eqb_spec a b) as [->|Hne].
    + rewrite IH. split; congruence.
    + split; [discriminate|]. congruence.
Qed.

Lemma take_class_nonempty (c : ascii) (s : string) :
  take_class (String c s) <> ""%string <-> num_class c = true.
Proof.
  cbn [take_class]. destruct (num_class c); split; congruence.
Qed.

Lemma take_class_split (s : string) :
  exists post, s = take_class s +:+ post /\ take_class post = ""%string.
Proof.
  induction s as [|c s (post & Hs & Hpost)].
  - exists ""%string. split; reflexivity.
  - cbn [take_class]. destruct (num_class c) eqn:Hc.
    + exists post. rewrite append_cons, <- Hs. auto.
    + exists (String c s). split; [reflexivity|]. cbn [take_class]. rewrite Hc. reflexivity.
Qed.

(** The match at the first position of [s], if there is one. *)
Lemma match_label_unfold (label s : string) :
  match_label label s
  = match strip_prefix label s with
    | Some (String c rest) =>
        if num_class c then Some (take_class (String c rest))
        else match s with String _ s' => match_label label s' | EmptyString => None end
    | _ => match s with String _ s' => match_label label s' | EmptyString => None end
    end.
Proof.
  destruct s as [|a s]; cbn [match_label];
    (destruct (strip_prefix label _) as [[|c rest]|]; [reflexivity| |reflexivity]);
    cbn [take_class]; destruct (num_class c); reflexivity.
Qed.

Lemma length_absurd (pre label t : string) (c : ascii) :
  ""%string <> pre +:+ label +:+ String c t.
Proof.
  intros H. apply (f_equal String.length) in H. rewrite !length_append in H.
  cbn in H. lia.
Qed.

(** A place in [String a s] is its first position or a place in [s]. *)
Lemma place_cases (a : ascii) (s pre label t : string) :
  String a s = pre +:+ label +:+ t ->
  (pre = ""%string /\ strip_prefix label (String a s) = Some t)
  \/ exists pre', pre = String a pre' /\ s = pre' +:+ label +:+ t.
Proof.
  destruct pre as [|b pre]; intros H.
  - left. split; [reflexivity|]. apply strip_prefix_Some. exact H.
  - right. rewrite append_cons in H. injection H as <- H. eauto.
Qed.

Lemma match_label_None (label s : string) :
  match_label label s = None
  <-> forall pre c rest, s = pre +:+ label +:+ String c rest -> num_class c = false.
Proof.
  induction s as [|a s IH]; rewrite match_label_unfold.
  - destruct (strip_prefix label "") as [[|c0 rest0]|] eqn:Hp.
    + split; [|reflexivity]. intros _ pre c rest H. destruct (length_absurd _ _ _ _ H).
    + apply strip_prefix_Some in Hp. destruct (length_absurd "" _ _ _ Hp).
    + split; [|reflexivity]. intros _ pre c rest H. destruct (length_absurd _ _ _ _ H).
  - assert (Hrec : (forall c rest, strip_prefix label (String a s) = Some (String c rest) ->
                      num_class c = false) ->
             (match_label label s = None
              <-> forall pre c rest, String a s = pre +:+ label +:+ String c rest ->
                                     num_class c = false)).
    { intros Hfirst. rewrite IH. split.
      - intros H pre c rest Hs.
        destruct (place_cases _ _ _ _ _ Hs) as [(_ & Hs')|(pre' & -> & Hs')];
          [eapply Hfirst | eapply H]; eassumption.
      - intros H pre c rest Hs. apply (H (String a pre) c rest).
        rewrite append_cons, Hs. reflexivity. }
    destruct (strip_prefix label (String a s)) as [[|c0 rest0]|] eqn:Hp;
      [| destruct (num_class c0) eqn:Hc0 |].
    + apply Hrec. discriminate.
    + split; [discriminate|]. intros H. apply strip_prefix_Some in Hp.
      rewrite (H "" c0 rest0 Hp) in Hc0. discriminate.
    + apply Hrec. intros c rest [= <- <-]. assumption.
    + apply Hrec. discriminate.
Qed.

Lemma match_label_Some (label s cap : string) :
  match_label label s = Some cap
  <-> exists pre post,
        s = pre +:+ label +:+ cap +:+ post
        /\ cap <> ""%string
        /\ take_class (cap +:+ post) = cap
        /\ forall pre' c rest,
             s = pre' +:+ label +:+ String c rest -> num_class c = true ->
             (String.length pre <= String.length pre')%nat.
Proof.
  induction s as [|a s IH]; rewrite match_label_unfold.
  - split.
    + destruct (strip_prefix label "") as [[|c0 rest0]|] eqn:Hp; try discriminate.
      apply strip_prefix_Some in Hp. destruct (length_absurd "" _ _ _ Hp).
    + intros (pre & post & H & Hne & _). exfalso.
      destruct cap as [|c cap]; [congruence|]. rewrite append_cons in H.
      exact (length_absurd _ _ _ _ H).
  - assert (Hrec : (forall c rest, strip_prefix label (String a s) = Some (String c rest) ->
                      num_class c = false) ->
             (match_label label s = Some cap
              <-> exists pre post,
                    String a s = pre +:+ label +:+ cap +:+ post
                    /\ cap <> ""%string
                    /\ take_class (cap +:+ post) = cap
                    /\ forall pre' c rest,
                         String a s = pre' +:+ label +:+ String c rest ->
                         num_class c = true ->
                         (String.length pre <= String.length pre')%nat)).
    { intros Hfirst. rewrite IH. split.
      - intros (pre & post & Hs & Hne & Hgreedy & Hleft).
        exists (String a pre), post.
        split; [rewrite append_cons, <- Hs; reflexivity|].
        repeat split; try assumption.
        intros pre' c rest Hs' Hc.
        destruct (place_cases _ _ _ _ _ Hs') as [(_ & Hs'')|(pre'' & -> & Hs'')].
        + rewrite (Hfirst _ _ Hs'') in Hc. discriminate.
        + cbn [String.length]. apply le_n_S. eapply Hleft; eassumption.
      - intros (pre & post & Hs & Hne & Hgreedy & Hleft).
        destruct (place_cases _ _ _ _ _ Hs) as [(_ & Hs')|(pre' & -> & Hs')].
        + exfalso. destruct cap as [|c cap]; [congruence|].
          rewrite append_cons in Hs', Hgreedy. cbn [take_class] in Hgreedy.
          rewrite (Hfirst _ _ Hs') in Hgreedy. discriminate.
        + exists pre', post. repeat split; try assumption.
          intros pre'' c rest Hs'' Hc. apply le_S_n.
          apply (Hleft (String a pre'') c rest); [|assumption].
          rewrite append_cons, Hs''. reflexivity. }
    destruct (strip_prefix label (String a s)) as [[|c0 rest0]|] eqn:Hp;
      [| destruct (num_class c0) eqn:Hc0 |].
    + apply Hrec. discriminate.
    + apply strip_prefix_Some in Hp.
      destruct (take_class_split (String c0 rest0)) as (post & Hsplit & Hpost).
      clear IH Hrec. remember (take_class (String c0 rest0)) as cap0 eqn:Hcap0.
      split.
      * intros [= <-]. exists ""%string, post. rewrite <- Hsplit. repeat split.
        -- exact Hp.
        -- rewrite Hcap0. apply take_class_nonempty. assumption.
        -- rewrite Hcap0. reflexivity.
        -- intros; cbn; lia.
      * intros (pre & post' & Hs & Hne & Hgreedy & Hleft).
        specialize (Hleft "" c0 rest0 Hp Hc0).
        destruct pre; [|cbn in Hleft; lia].
        rewrite Hp in Hs. apply (append_inv_head label) in Hs.
        rewrite Hcap0, Hs, Hgreedy. reflexivity.
    + apply Hrec. intros c rest [= <- <-]. assumption.
    + apply Hrec. discriminate.
Qed.

(** X9: the regular expression [/<label>([-\d.]+)/] as [match_label]
    computes it.  The match is [null] exactly when the label is nowhere
    followed by a character of the class; otherwise the capture group is
    the longest run of class characters after the leftmost place where
    the label is followed by one. *)
Theorem match_label_spec (label s : string) :
  (match_label label s = None
   <-> forall pre c rest, s = pre +:+ label +:+ String c rest -> num_class c = false)
  /\ (forall cap,
        match_label label s = Some cap
        <-> exists pre post,
              s = pre +:+ label +:+ cap +:+ post
              /\ cap <> ""%string
              /\ take_class (cap +:+ post) = cap
              /\ forall pre' c rest,
                   s = pre' +:+ label +:+ String c rest -> num_class c = true ->
                   (String.length pre <= String.length pre')%nat).
Proof.
  split; [apply match_label_None|]. intros cap. apply match_label_Some.
Qed.

(* ================================================================== *)
(** ** Every window, once *)
(* ================================================================== *)

Lemma started_batch_log (ks : list Z) : started (batch_log ks) = ks.
Proof.
  unfold started, batch_log. rewrite omap_app. cbn [omap]. rewrite app_nil_r.
  induction ks as [|k ks IH]; [reflexivity|]. cbn. rewrite IH. reflexivity.
Qed.

Lemma joined_batch_log (ks : list Z) : joined (batch_log ks) = [ks].
Proof.
  unfold joined, batch_log. rewrite omap_app.
  assert (omap (fun e => match e with Joined ks => Some ks | Started _ => None end)
            (Started <$> ks) = []) as ->
    by (induction ks as [|k ks IH]; [reflexivity|exact IH]).
  reflexivity.
Qed.

Lemma started_concat (bs : list (list Z)) :
  started (concat (batch_log <$> bs)) = concat bs.
Proof.
  induction bs as [|ks bs IH]; [reflexivity|]. cbn [fmap list_fmap concat].
  unfold started in *. rewrite omap_app. fold (started (batch_log ks)).
  rewrite started_batch_log, IH. reflexivity.
Qed.

Lemma joined_concat (bs : list (list Z)) :
  joined (concat (batch_log <$> bs)) = bs.
Proof.
  induction bs as [|ks bs IH]; [reflexivity|]. cbn [fmap list_fmap concat].
  unfold joined in *. rewrite omap_app. fold (joined (batch_log ks)).
  rewrite joined_batch_log, IH. reflexivity.
Qed.

(** The first [k] batches hold the windows below [10 * k], as far as
    there are windows. *)
Lemma batch_windows_concat (N : Z) (k : nat) :
  concat (batch_windows N <$> seqZ 0 (Z.of_nat k))
  = seqZ 0 (Z.min N (10 * Z.of_nat k)).
Proof.
  induction k as [|k IH].
  - rewrite !seqZ_nil by lia. reflexivity.
  - rewrite Nat2Z.inj_succ, <- Z.add_1_r, seqZ_app, fmap_app, concat_app, IH by lia.
    assert (seqZ (0 + Z.of_nat k) 1 = [Z.of_nat k]) as ->
      by (unfold seqZ; cbn; f_equal; lia).
    cbn [fmap list_fmap concat]. rewrite app_nil_r. unfold batch_windows.
    destruct (Z.le_gt_cases N (10 * Z.of_nat k)) as [Hle|Hgt].
    + rewrite (seqZ_nil (10 * Z.of_nat k)) by lia. rewrite app_nil_r.
      f_equal. lia.
    + destruct (Z.le_gt_cases N 0) as [HN|HN].
      { rewrite !seqZ_nil by lia. reflexivity. }
      replace (Z.min N (10 * Z.of_nat k)) with (10 * Z.of_nat k) by lia.
      replace (Z.min N (10 * (Z.of_nat k + 1)))
        with (10 * Z.of_nat k + Z.min 10 (N - 10 * Z.of_nat k)) by lia.
      rewrite seqZ_app by lia. reflexivity.
Qed.

Lemma batch_windows_all (N : Z) :
  concat (batch_windows N <$> seqZ 0 (batch_count N)) = seqZ 0 N.
Proof.
  unfold batch_count. destruct (Z.le_gt_cases N 0) as [HN|HN].
  - rewrite (seqZ_nil 0 N) by lia.
    rewrite (seqZ_nil 0 ((N + 9) / 10)); [reflexivity|].
    clear -HN. Z.div_mod_to_equations. lia.
  - rewrite <- (Z2Nat.id ((N + 9) / 10)) by (clear -HN; Z.div_mod_to_equations; lia).
    rewrite batch_windows_concat, Z2Nat.id by (clear -HN; Z.div_mod_to_equations; lia).
    f_equal. clear -HN. Z.div_mod_to_equations. lia.
Qed.

(** X10: every window is analysed exactly once.  When the duration
    gives [N] windows, the calls that [analyzeAudio] starts are those of
    the windows [0, 1, ..., N - 1], in this order and each once; they are
    joined in [ceil(N / 10)] batches, every batch but the last of exactly
    ten windows and the last of at least one. *)
Theorem every_window_analysed_once pow_approx w audioPath out N :
  execAsync w (Ffprobe audioPath) = ExecOk out ->
  Math_floor (parseFloat (trim out) / interval) = IntFin N ->
  let log := snd (analyzeAudio_run pow_approx w audioPath) in
  started log = seqZ 0 N
  /\ joined log = batch_windows N <$> seqZ 0 (batch_count N)
  /\ (0 <= N -> 10 * (batch_count N - 1) < N <= 10 * batch_count N)
  /\ (forall b, 0 <= b < batch_count N - 1 ->
        length (batch_windows N b) = 10%nat)
  /\ (0 < N ->
      (1 <= length (batch_windows N (batch_count N - 1)) <= 10)%nat).
Proof.
  intros Hprobe Hfloor log. subst log.
  rewrite (analyzeAudio_fin _ _ _ _ _ Hprobe Hfloor). cbn [snd].
  rewrite list_fmap_compose, started_concat, joined_concat, batch_windows_all.
  split; [reflexivity|]. split; [reflexivity|].
  unfold batch_windows, batch_count. split; [|split].
  - intros HN. clear -HN. Z.div_mod_to_equations. lia.
  - intros b Hb. rewrite length_seqZ.
    clear -Hb. Z.div_mod_to_equations. lia.
  - intros HN. rewrite length_seqZ.
    clear -HN. Z.div_mod_to_equations. lia.
Qed.

Lemma every_window_analysed_once_witness :
  let log := snd (analyzeAudio_run pow_table steady_world "/app/temp/123.mp3") in
  started log = seqZ 0 300
  /\ joined log = batch_windows 300 <$> seqZ 0 (batch_count 300)
  /\ (0 <= 300 -> 10 * (batch_count 300 - 1) < 300 <= 10 * batch_count 300)
  /\ (forall b, 0 <= b < batch_count 300 - 1 ->
        length (batch_windows 300 b) = 10%nat)
  /\ (0 < 300 ->
      (1 <= length (batch_windows 300 (batch_count 300 - 1)) <= 10)%nat).
Proof.
  apply (every_window_analysed_once pow_table steady_world "/app/temp/123.mp3"
           "30.000000
" 300); reflexivity.
Defined.

(* ================================================================== *)
(** ** A level that is not a number *)
(* ================================================================== *)

Lemma nan_mul (x : float) : (nan * x)%float = nan.
Proof.
  apply Prim2SF_inj. rewrite mul_spec. reflexivity.
Qed.

(** X11: a level that does not parse spoils the whole sample.  When the
    text captured after [RMS level dB: ] parses to [NaN] (as the [-] of
    [-inf] does), the amplitude and the three bands of the sample are
    [NaN], whatever [Math.random] draws and whatever [Math.pow] is. *)
Theorem unparsed_level_spoils_sample pow_approx w audioPath time duration rnd stdout g :
  execAsync w (Ffmpeg audioPath time duration) = ExecOk stdout ->
  match_label "RMS level dB: " stdout = Some g ->
  parseFloat g = nan ->
  let s := analyzeSample pow_approx w audioPath time duration rnd in
  Sample.amplitude s = nan /\ Sample.bass s = nan
  /\ Sample.mid s = nan /\ Sample.high s = nan.
Proof.
  intros Hexec Hrms Hnan. cbv zeta. unfold analyzeSample.
  rewrite Hexec, Hrms, Hnan. destruct rnd as [[r1 r2] r3].
  change (Math_pow pow_approx 10 (nan / 20)) with nan.
  cbn [Sample.amplitude Sample.bass Sample.mid Sample.high].
  rewrite !nan_mul. repeat split.
Qed.

Lemma unparsed_level_spoils_sample_witness :
  let s := analyzeSample pow_table (world_printing silent_stats)
             "/app/temp/123.mp3" 0 interval (0.5, 0.25, 0.75)%float in
  Sample.amplitude s = nan /\ Sample.bass s = nan
  /\ Sample.mid s = nan /\ Sample.high s = nan.
Proof.
  apply (unparsed_level_spoils_sample pow_table (world_printing silent_stats)
           "/app/temp/123.mp3" 0 interval (0.5, 0.25, 0.75)%float silent_stats "-");
    reflexivity.
Defined.

(* ================================================================== *)
(** ** The sweep of the temp directory on [SIGTERM] *)
(* ================================================================== *)

Lemma unlink_each_spec w tempDir files unlinked err :
  unlink_each w tempDir files = (unlinked, err) ->
  exists done rest,
    files = done ++ rest
    /\ unlinked = (fun file => tempDir +:+ "/" +:+ file) <$> done
    /\ Forall (fun file => unlinkSync w (tempDir +:+ "/" +:+ file) = None) done
    /\ match err with
       | None => rest = []
       | Some message =>
           exists file rest',
             rest = file :: rest'
             /\ unlinkSync w (tempDir +:+ "/" +:+ file) = Some message
       end.
Proof.
  revert unlinked err. induction files as [|file files IH]; intros unlinked err.
  - intros [= <- <-]. exists [], []. repeat split. constructor.
  - cbn [unlink_each]. cbv zeta.
    destruct (unlinkSync w (tempDir +:+ "/" +:+ file)) as [message|] eqn:Hrm.
    + intros [= <- <-]. exists [], (file :: files). repeat split; [constructor|].
      eauto.
    + destruct (unlink_each w tempDir files) as [unlinked' err'] eqn:Hrest.
      intros [= <- <-].
      destruct (IH _ _ eq_refl) as (done & rest & -> & -> & Hdone & Herr).
      exists (file :: done), rest. repeat split; [|assumption].
      constructor; assumption.
Qed.

(** X12: what the [SIGTERM] handler deletes and how the process ends.
    Without a temp directory nothing is deleted and the process exits
    with code 0.  With one, when [readdirSync] throws (the path is a
    file, or may not be read) nothing is deleted and the exception is
    not caught.  Otherwise the files the directory lists are deleted in
    the order of the listing, each as [tempDir/file], up to the first
    one whose [unlinkSync] throws: if none throws, all are deleted and
    the process exits with code 0; if one throws, the files after it are
    left and the exception is not caught ([process.exit(0)] is not
    reached). *)
Theorem sigterm_sweep w readdirSync unlinked t :
  on_SIGTERM w readdirSync = (unlinked, t) ->
  let tempDir := dirname w +:+ "/temp" in
  if existsSync w tempDir then
    match readdirSync tempDir with
    | DirErr message => unlinked = [] /\ t = Uncaught message
    | DirOk files =>
        exists done rest,
          files = done ++ rest
          /\ unlinked = (fun file => tempDir +:+ "/" +:+ file) <$> done
          /\ Forall (fun file => unlinkSync w (tempDir +:+ "/" +:+ file) = None) done
          /\ match t with
             | Exit code => code = 0 /\ rest = []
             | Uncaught message =>
                 exists file rest',
                   rest = file :: rest'
                   /\ unlinkSync w (tempDir +:+ "/" +:+ file) = Some message
             end
    end
  else unlinked = [] /\ t = Exit 0.
Proof.
  unfold on_SIGTERM. cbv zeta.
  destruct (existsSync w (dirname w +:+ "/temp")); [|intros [= <- <-]; auto].
  destruct (readdirSync (dirname w +:+ "/temp")) as [files|message];
    [|intros [= <- <-]; auto].
  destruct (unlink_each w _ _) as [unlinked' err] eqn:Hsweep.
  apply unlink_each_spec in Hsweep as (done & rest & Hfiles & -> & Hdone & Herr).
  destruct err as [message|]; intros [= <- <-]; exists done, rest; auto.
Qed.

(** Two temp files are listed; the second cannot be deleted. *)
Lemma sigterm_sweep_witness :
  let w := {| dirname := "/app";
              existsSync := fun _ => true;
              mkdirSync := fun _ => None;
              axios := fun _ => None;
              pipe_to_file := fun _ => Returns tt;
              unlinkSync := fun p =>
                if String.eqb p "/app/temp/456.mp3"
                then Some "EPERM: operation not permitted, unlink" else None;
              execAsync := execAsync steady_world;
              Math_random := Math_random steady_world |} in
  exists done rest,
    ["123.mp3"; "456.mp3"; "789.mp3"]%string = done ++ rest
    /\ ["/app/temp/123.mp3"]%string
       = (fun file => "/app/temp" +:+ "/" +:+ file) <$> done
    /\ Forall (fun file => unlinkSync w ("/app/temp" +:+ "/" +:+ file) = None) done
    /\ exists file rest',
         rest = file :: rest'
         /\ unlinkSync w ("/app/temp" +:+ "/" +:+ file)
            = Some "EPERM: operation not permitted, unlink"%string.
Proof.
  intros w.
  apply (sigterm_sweep w (fun _ => DirOk ["123.mp3"; "456.mp3"; "789.mp3"]%string)
           ["/app/temp/123.mp3"]%string
           (Uncaught "EPERM: operation not permitted, unlink")).
  reflexivity.
Defined.

(* ================================================================== *)
(** ** A request that is analysed *)
(* ================================================================== *)


